(** * csv_to_excel.py: the chunked CSV-to-spreadsheet splitter

    A shallow embedding of [src/csv_to_excel.py] and the properties of its
    accumulate-and-flush loop.

    Modelling choices.
    - A pandas [DataFrame] is a header (column names) and an ordered list of
      rows; the row type is left abstract, the script never looks inside one.
    - The file system seen by [os.path.exists] and [pd.read_csv] is a finite
      map from paths to CSV contents.  A file either parses to a table or
      makes [pd.read_csv] raise.
    - [print] and [DataFrame.to_excel] are the two effects of the script; they
      are threaded through a small state-and-exception monad so that the
      [try ... except Exception] of the source can be written as it is.
      The only exception modelled is the one [pd.read_csv] raises on opening
      a file it rejects; a write is taken to succeed and a table to parse to
      its end, so the statements about runs on a table are statements about
      runs that complete.
    - Python integers are unbounded: [rows_per_file] is a [Z]; [len] of a
      frame is a [nat]. *)

From Stdlib Require Import ZArith Lia Ascii String.
From stdpp Require Import base option list strings gmap pretty.

Set Default Proof Using "Type".

(** ** Library functions used by the script *)

Module os_path.

(** [str.rfind] for a one-character needle: highest index, or -1. *)
Fixpoint rfind_from (c : ascii) (s : string) (i last : Z) : Z :=
  match s with
  | EmptyString => last
  | String a s' => rfind_from c s' (i + 1)%Z (if Ascii.eqb a c then i else last)
  end.

Definition rfind (c : ascii) (s : string) : Z := rfind_from c s 0%Z (-1)%Z.

(** The [while filenameIndex < dotIndex] loop of [genericpath._splitext]:
    is there a character other than the extension separator in
    [p[filenameIndex:dotIndex]]? *)
Fixpoint has_stem (p : string) (filenameIndex count : nat) : bool :=
  match count with
  | O => false
  | S count' =>
      match String.get filenameIndex p with
      | Some a =>
          if Ascii.eqb a "."%char then has_stem p (S filenameIndex) count'
          else true
      | None => false
      end
  end.

(** [os.path.splitext] (POSIX flavour): the extension starts at the last
    dot of the last path component, leading dots of that component
    excepted. *)
Definition splitext (p : string) : string * string :=
  let sepIndex := rfind "/"%char p in
  let dotIndex := rfind "."%char p in
  if (sepIndex <? dotIndex)%Z
  then
    let filenameIndex := Z.to_nat (sepIndex + 1) in
    if has_stem p filenameIndex (Z.to_nat dotIndex - filenameIndex)
    then (String.substring 0 (Z.to_nat dotIndex) p,
          String.substring (Z.to_nat dotIndex)
            (String.length p - Z.to_nat dotIndex) p)
    else (p, EmptyString)
  else (p, EmptyString).

End os_path.

(** ** Data model *)

Section Splitter.

Context {Row : Type}.

(** A data frame: the column names and the rows, in order. *)
Record DataFrame : Type := mkFrame {
  columns : list string;
  rows : list Row
}.

(** Python's [len(df)]. *)
Definition len (df : DataFrame) : nat := length (rows df).

(** What a path of the file system holds: a CSV text that the pandas
    parser rejects (for instance a file of zero bytes, for which it raises
    [EmptyDataError]), or a header line followed by records. *)
Inductive CsvFile : Type :=
| Unparsable (err : string)
| Table (header : list string) (records : list Row).

(** [pd.concat(frames)].  It raises [ValueError] on an empty list.  All the
    frames handed to it by the script are chunks of one reader and share
    its header, so the union of their columns is the header of the first. *)
Definition pd_concat (frames : list DataFrame) : option DataFrame :=
  match frames with
  | [] => None
  | f :: _ => Some (mkFrame (columns f) (mjoin (rows <$> frames)))
  end.

(** Successive slices of at most [chunksize] records.  Every slice of a
    non-empty remainder consumes a record when [chunksize] is positive, so
    [length l] rounds always suffice (see [chunks_go_unfold]). *)
Fixpoint chunks_go (fuel chunksize : nat) (l : list Row) : list (list Row) :=
  match fuel with
  | O => []
  | S fuel' =>
      match l with
      | [] => []
      | _ :: _ => take chunksize l :: chunks_go fuel' chunksize (drop chunksize l)
      end
  end.

(** [pd.read_csv(path, chunksize=n)] as the list of frames its iterator
    yields: slices of [n] records, the last one possibly shorter.  The first
    [next] on a table without records returns an empty frame that carries the
    header (the pandas parser keeps a first-chunk flag for this, and turns
    the end of input into an empty result once); after that the iterator
    stops as soon as no record is left.  Opening a file the parser rejects
    raises at once.  The real iterator reads lazily and can also raise at a
    later read, when parts are already on the disk; a [Table] stands for a
    source whose records all parse, so that case is outside the model. *)
Definition read_csv (file : CsvFile) (chunksize : nat)
  : string + list DataFrame :=
  match file with
  | Unparsable err => inl err
  | Table header [] => inr [mkFrame header []]
  | Table header records =>
      inr (mkFrame header <$> chunks_go (length records) chunksize records)
  end.

(** ** Effects: standard output and the spreadsheets written *)

Record World : Type := mkWorld {
  written : list (string * DataFrame);
  stdout : list string
}.

Definition world0 : World := mkWorld [] [].

(** State over [World], with Python exceptions (carried as their message). *)
Definition M (A : Type) : Type := World → World * (string + A).

Definition ret {A} (a : A) : M A := λ w, (w, inr a).
Definition raise {A} (e : string) : M A := λ w, (w, inl e).
Definition bind {A B} (m : M A) (k : A → M B) : M B :=
  λ w, match m w with
       | (w', inr a) => k a w'
       | (w', inl e) => (w', inl e)
       end.

Definition print (line : string) : M unit :=
  λ w, (mkWorld (written w) (stdout w ++ [line]), inr tt).

(** [df.to_excel(filename, index=False)].  The library call can raise (a
    directory that does not exist, a full disk, a sheet beyond the limits of
    the format); the script then leaves through [except] with status 1 and
    that part is not written.  This is not modelled: here a write succeeds,
    and what is proved below of a run on a table is proved of the runs in
    which every write succeeds. *)
Definition to_excel (df : DataFrame) (filename : string) : M unit :=
  λ w, (mkWorld (written w ++ [(filename, df)]) (stdout w), inr tt).

Definition of_option {A} (e : string) (o : option A) : M A :=
  match o with Some a => ret a | None => raise e end.

Definition of_sum {A} (s : string + A) : M A :=
  match s with inr a => ret a | inl e => raise e end.

End Splitter.

Arguments DataFrame : clear implicits.
Arguments CsvFile : clear implicits.
Arguments World : clear implicits.
Arguments M : clear implicits.

Declare Scope script_scope.
Delimit Scope script_scope with script.
Notation "'let*' x ':=' m 'in' k" := (bind m (λ x, k))
(at level 10, x name, m at level 100, k at level 200) : script_scope.
Notation "m '>>' k" := (bind m (λ _, k))
(at level 100, k at level 200, right associativity) : script_scope.
Open Scope script_scope.

(** ** The script *)

Section Script.

Context {Row : Type}.

Abbreviation DataFrame := (DataFrame Row).
Abbreviation CsvFile := (CsvFile Row).
Abbreviation World := (World Row).
Abbreviation M := (M Row).

(** [chunk_size = 50000], the number of records per read. *)
Definition chunk_size : nat := Z.to_nat 50000.

(** The three local variables of the accumulation loop. *)
Record Locals : Type := mkLocals {
  current_data : list DataFrame;
  current_rows : nat;
  file_counter : nat
}.

(** How a run of the process ends: its exit status and what it has printed
    and written by then. *)
Record Outcome : Type := mkOutcome {
  exit_status : Z;
  world : World
}.

(** The block shared by the two flushes: concatenate the accumulated
    chunks, name the part after the counter, report, write, report.  The
    two sites differ in the wording of the first message only. *)
Definition write_part (output_prefix : string) (remaining : bool)
    (l : Locals) : M unit :=
  let* df_part := of_option "No objects to concatenate"
                    (pd_concat (current_data l)) in
  let output_filename :=
    output_prefix +:+ "_part" +:+ pretty (file_counter l) +:+ ".xlsx" in
  print ((if remaining then "Writing remaining " else "Writing ")
           +:+ pretty (len df_part) +:+ " rows to '" +:+ output_filename
           +:+ "'...") >>
  to_excel df_part output_filename >>
  print ("Saved " +:+ output_filename).

(** The body of [for chunk in csv_iterator]. *)
Definition loop_body (output_prefix : string) (rows_per_file : Z)
    (l : Locals) (chunk : DataFrame) : M Locals :=
  let l := mkLocals (current_data l ++ [chunk])
                    (current_rows l + len chunk)
                    (file_counter l) in
  if (rows_per_file <=? Z.of_nat (current_rows l))%Z
  then
    (* the test against 1048576 has an empty branch: nothing to model *)
    write_part output_prefix false l >>
    ret (mkLocals [] 0 (file_counter l + 1))
  else ret l.

(** A [for] loop over the frames the iterator yields. *)
Fixpoint for_each (body : Locals → DataFrame → M Locals) (l : Locals)
    (chunks : list DataFrame) : M Locals :=
  match chunks with
  | [] => ret l
  | chunk :: chunks' =>
      let* l' := body l chunk in for_each body l' chunks'
  end.

(** The statements inside [try:]. *)
Definition try_block (file : CsvFile) (output_prefix : string)
    (rows_per_file : Z) : M unit :=
  let* csv_iterator := of_sum (read_csv file chunk_size) in
  let* l := for_each (loop_body output_prefix rows_per_file)
              (mkLocals [] 0 1) csv_iterator in
  (match current_data l with
   | [] => ret tt
   | _ :: _ => write_part output_prefix true l
   end) >>
  print "All conversions successful!".

(** [convert_csv_to_excel(input_csv, output_prefix, rows_per_file)], run
    from the world [w]. *)
Definition convert_csv_to_excel (fs : gmap string CsvFile)
    (input_csv : string) (output_prefix : option string)
    (rows_per_file : Z) (w : World) : Outcome :=
  match fs !! input_csv with
  | None =>
      mkOutcome 1
        (print ("Error: The file '" +:+ input_csv +:+ "' does not exist.") w).1
  | Some file =>
      let output_prefix :=
        match output_prefix with
        | None => (os_path.splitext input_csv).1
        | Some prefix => prefix
        end in
      let script : M unit :=
        print ("Processing '" +:+ input_csv +:+ "'...") >>
        print ("Splitting into files of " +:+ pretty rows_per_file
                 +:+ " rows each to save RAM and fit in Excel...") >>
        try_block file output_prefix rows_per_file in
      match script w with
      | (w', inr _) => mkOutcome 0 w'
      | (w', inl e) => mkOutcome 1 (print ("An error occurred: " +:+ e) w').1
      end
  end.

(** The [__main__] block; [rows_flag] is the value given to [-r/--rows],
    [None] when the flag is absent. *)
Definition main (fs : gmap string CsvFile) (input_csv : string)
    (rows_flag : option Z) : Outcome :=
  let args_rows := default 500000%Z rows_flag in
  let validation : M Z :=
    if (1000000 <? args_rows)%Z
    then
      print "Warning: Excel cannot hold more than 1,048,576 rows per sheet." >>
      print "Resetting rows limit to 1,000,000." >>
      ret 1000000%Z
    else ret args_rows in
  match validation world0 with
  | (w, inr args_rows) => convert_csv_to_excel fs input_csv None args_rows w
  | (w, inl _) => mkOutcome 1 w
  end.

(** The frames written, in the order of writing. *)
Definition artifacts (o : Outcome) : list DataFrame := (written (world o)).*2.

End Script.

Arguments Locals : clear implicits.
Arguments Outcome : clear implicits.


(** ** The loop, read as a function from chunks to groups of chunks

    These definitions are not part of the script: they name what its loop
    computes, and the lemmas further down relate them to [for_each],
    [loop_body] and [read_csv]. *)

Section Groups.

Context {Row : Type}.

Abbreviation DataFrame := (DataFrame Row).

(** Rows held by a list of frames: the value of [current_rows] when the
    list is [current_data]. *)
Definition total (frames : list DataFrame) : nat := sum_list_with len frames.

(** The groups of chunks flushed inside the loop, started with [acc] in the
    accumulator. *)
Fixpoint flushed (P : Z) (acc chunks : list DataFrame) : list (list DataFrame) :=
  match chunks with
  | [] => []
  | c :: cs =>
      if (P <=? Z.of_nat (total (acc ++ [c])))%Z
      then (acc ++ [c]) :: flushed P [] cs
      else flushed P (acc ++ [c]) cs
  end.

(** The accumulator when the iterator is exhausted. *)
Fixpoint pending (P : Z) (acc chunks : list DataFrame) : list DataFrame :=
  match chunks with
  | [] => acc
  | c :: cs =>
      if (P <=? Z.of_nat (total (acc ++ [c])))%Z
      then pending P [] cs
      else pending P (acc ++ [c]) cs
  end.

(** All groups that reach the disk: the flushed ones, then the remainder. *)
Definition groups (P : Z) (chunks : list DataFrame) : list (list DataFrame) :=
  flushed P [] chunks ++
  match pending P [] chunks with [] => [] | r => [r] end.

(** The frame [pd.concat] builds from a non-empty group. *)
Definition glue (g : list DataFrame) : DataFrame :=
  mkFrame (match g with [] => [] | f :: _ => columns f end) (mjoin (rows <$> g)).

Definition part_name (output_prefix : string) (k : nat) : string :=
  output_prefix +:+ "_part" +:+ pretty k +:+ ".xlsx".

(** Frames paired with consecutive part names, counting from [k]. *)
Fixpoint numbered (output_prefix : string) (k : nat) (frames : list DataFrame)
  : list (string * DataFrame) :=
  match frames with
  | [] => []
  | df :: frames' =>
      (part_name output_prefix k, df) :: numbered output_prefix (k + 1) frames'
  end.

(** The prefix the script ends up using. *)
Definition effective_prefix (input_csv : string) (output_prefix : option string)
  : string :=
  match output_prefix with
  | None => (os_path.splitext input_csv).1
  | Some prefix => prefix
  end.

(** Chunks as the reader cuts them: all full, the last one possibly short. *)
Fixpoint regular (n : nat) (chunks : list DataFrame) : Prop :=
  match chunks with
  | [] => True
  | c :: cs =>
      match cs with
      | [] => len c ≤ n
      | _ :: _ => len c = n ∧ regular n cs
      end
  end.

(** The frames of [read_csv] on a table. *)
Definition table_chunks (n : nat) (h : list string) (recs : list Row)
  : list DataFrame :=
  match recs with
  | [] => [mkFrame h []]
  | _ :: _ => mkFrame h <$> chunks_go (length recs) n recs
  end.

(** A group flushed inside the loop: full chunks that did not reach the
    threshold, then the chunk that did. *)
Definition flush_ready (n : nat) (P : Z) (g : list DataFrame) : Prop :=
  ∃ init c, g = init ++ [c] ∧ Forall (λ c', len c' = n) init ∧ len c ≤ n ∧
            (init = [] ∨ (Z.of_nat (total init) < P)%Z) ∧
            (P ≤ Z.of_nat (total g))%Z.

End Groups.

(** ** What a run prints *)

Section Transcript.

Context {Row : Type}.

Abbreviation DataFrame := (DataFrame Row).

(** The two lines printed around one [to_excel]: the announcement, worded
    for a flush inside the loop or for the remainder, and the confirmation. *)
Definition report (output_prefix : string) (remaining : bool) (k : nat)
    (df : DataFrame) : list string :=
  [ (if remaining then "Writing remaining " else "Writing ")
      +:+ pretty (len df) +:+ " rows to '" +:+ part_name output_prefix k +:+ "'...";
    "Saved " +:+ part_name output_prefix k ].

(** The lines of the flushes inside the loop, parts counted from [k]. *)
Fixpoint reports (output_prefix : string) (k : nat) (frames : list DataFrame)
  : list string :=
  match frames with
  | [] => []
  | df :: frames' =>
      report output_prefix false k df ++ reports output_prefix (k + 1) frames'
  end.

(** Everything a successful run prints. *)
Definition transcript (input_csv output_prefix : string) (P : Z)
    (chunks : list DataFrame) : list string :=
  [ "Processing '" +:+ input_csv +:+ "'...";
    "Splitting into files of " +:+ pretty P
      +:+ " rows each to save RAM and fit in Excel..." ] ++
  reports output_prefix 1 (glue <$> flushed P [] chunks) ++
  match pending P [] chunks with
  | [] => []
  | c :: r =>
      report output_prefix true (1 + length (flushed P [] chunks)) (glue (c :: r))
  end ++
  [ "All conversions successful!" ].

(** The invariant of the accumulation loop: the counter of rows is the
    number of rows accumulated, and a non-empty accumulator is still below
    the threshold. *)
Definition loop_inv (P : Z) (l : Locals Row) : Prop :=
  current_rows l = total (current_data l) ∧
  (current_data l = [] ∨ (Z.of_nat (current_rows l) < P)%Z).

(** The two lines that go with one file on the disk: the announcement,
    whose wording follows from the number of rows of the file against the
    threshold, and the confirmation. *)
Definition file_lines (P : Z) (f : string * DataFrame) : list string :=
  [ (if (Z.of_nat (len f.2) <? P)%Z then "Writing remaining " else "Writing ")
      +:+ pretty (len f.2) +:+ " rows to '" +:+ f.1 +:+ "'...";
    "Saved " +:+ f.1 ].

End Transcript.

(** ** Sample inputs *)

Module Samples.

(** Rows as lists of cell texts. *)
Definition sales_header : list string := ["id"; "item"].

Definition sales_rows : list (list string) :=
  [["1"; "pen"]; ["2"; "ink"]; ["3"; "pad"]].

Definition sample_fs : gmap string (CsvFile (list string)) :=
  {[ "data/sales.csv" := Table sales_header sales_rows;
     "data/header_only.csv" := Table sales_header [];
     "data/zero_bytes.csv" := Unparsable "No columns to parse from file" ]}.

(** The same table under another name, on another disk. *)
Definition mirror_fs : gmap string (CsvFile (list string)) :=
  {[ "backup/sales_copy.csv" := Table sales_header sales_rows ]}.

(** A table of 50,001 identical records: one full chunk and one record. *)
Definition long_rows : list (list string) := replicate (Z.to_nat 50001) ["0"; "x"].

Definition long_fs : gmap string (CsvFile (list string)) :=
  {[ "long.csv" := Table sales_header long_rows ]}.

End Samples.

(** * Properties *)

(** ** Sums, names and joins *)

Section GroupFacts.

Context {Row : Type}.

Abbreviation DataFrame := (DataFrame Row).

Lemma total_app (a b : list DataFrame) : total (a ++ b) = total a + total b.
Proof. apply sum_list_with_app. Qed.

Lemma total_snoc (a : list DataFrame) c : total (a ++ [c]) = total a + len c.
Proof. rewrite total_app. unfold total. simpl. lia. Qed.

Lemma len_glue (g : list DataFrame) : len (glue g) = total g.
Proof.
  unfold len, glue, total. simpl. clear.
  induction g as [|f g IH]; simpl; [done|].
  rewrite length_app. unfold len at 1. f_equal. exact IH.
Qed.

Lemma pd_concat_snoc (acc : list DataFrame) c :
  pd_concat (acc ++ [c]) = Some (glue (acc ++ [c])).
Proof. by destruct acc. Qed.

Lemma pd_concat_cons (c : DataFrame) cs : pd_concat (c :: cs) = Some (glue (c :: cs)).
Proof. done. Qed.

Lemma numbered_app prefix k (a b : list DataFrame) :
  numbered prefix k (a ++ b) = numbered prefix k a ++ numbered prefix (k + length a) b.
Proof.
  revert k. induction a as [|x a IH]; intros k; simpl.
  - by rewrite Nat.add_0_r.
  - rewrite IH. do 3 f_equal. lia.
Qed.

Lemma numbered_snd prefix k (a : list DataFrame) : (numbered prefix k a).*2 = a.
Proof. revert k. induction a as [|x a IH]; intros k; simpl; [done|]. by rewrite IH. Qed.

Lemma numbered_lookup prefix k (a : list DataFrame) i df :
  a !! i = Some df → numbered prefix k a !! i = Some (part_name prefix (k + i), df).
Proof.
  revert k i. induction a as [|x a IH]; intros k [|i] H; simplify_eq/=.
  - by rewrite Nat.add_0_r.
  - rewrite (IH (k + 1) i H). do 3 f_equal. lia.
Qed.

(** Flushing loses nothing and keeps the order. *)
Lemma flushed_pending_join P (chunks acc : list DataFrame) :
  mjoin (flushed P acc chunks) ++ pending P acc chunks = acc ++ chunks.
Proof.
  revert acc. induction chunks as [|c cs IH]; intros acc; simpl.
  - by rewrite app_nil_r.
  - case_match; simpl.
    + rewrite <- !(assoc_L (++)). rewrite IH. done.
    + rewrite IH. by rewrite <- (assoc_L (++)).
Qed.

Lemma groups_join P (chunks : list DataFrame) : mjoin (groups P chunks) = chunks.
Proof.
  unfold groups. rewrite join_app.
  rewrite <- (flushed_pending_join P chunks []) at 3.
  f_equal. destruct (pending P [] chunks); simpl; [done|]. by rewrite app_nil_r.
Qed.

End GroupFacts.

(** ** The script computes these groups *)

Section Refinement.

Context {Row : Type}.

Implicit Types (l : Locals Row) (w : World Row) (c : DataFrame Row).
Implicit Types (chunks acc : list (DataFrame Row)) (fs : gmap string (CsvFile Row)).

Lemma chunk_size_Z : Z.of_nat chunk_size = 50000%Z.
Proof. unfold chunk_size. lia. Qed.

Lemma write_part_run prefix remaining l w df :
  pd_concat (current_data l) = Some df →
  ∃ out, write_part prefix remaining l w =
    (mkWorld (written w ++ [(part_name prefix (file_counter l), df)]) out, inr tt).
Proof.
  intros Hdf. unfold write_part. rewrite Hdf.
  eexists. unfold bind, of_option, ret, print, to_excel. simpl. reflexivity.
Qed.

Lemma loop_body_flush prefix P l c w :
  (P ≤ Z.of_nat (current_rows l + len c))%Z →
  ∃ out, loop_body prefix P l c w =
    (mkWorld (written w ++ [(part_name prefix (file_counter l),
                             glue (current_data l ++ [c]))]) out,
     inr (mkLocals [] 0 (file_counter l + 1))).
Proof.
  intros HP. unfold loop_body. simpl.
  rewrite (proj2 (Z.leb_le _ _) HP).
  destruct (write_part_run prefix false
              (mkLocals (current_data l ++ [c]) (current_rows l + len c)
                        (file_counter l)) w _ (pd_concat_snoc _ _))
    as [out Hrun].
  exists out. unfold bind. rewrite Hrun. reflexivity.
Qed.

Lemma loop_body_keep prefix P l c w :
  (Z.of_nat (current_rows l + len c) < P)%Z →
  loop_body prefix P l c w =
    (w, inr (mkLocals (current_data l ++ [c]) (current_rows l + len c)
                      (file_counter l))).
Proof.
  intros HP. unfold loop_body. simpl.
  by rewrite (proj2 (Z.leb_gt _ _) HP).
Qed.

Lemma for_each_run prefix P chunks : ∀ l w,
  current_rows l = total (current_data l) →
  ∃ out, for_each (loop_body prefix P) l chunks w =
    (mkWorld (written w ++ numbered prefix (file_counter l)
                (glue <$> flushed P (current_data l) chunks)) out,
     inr (mkLocals (pending P (current_data l) chunks)
                   (total (pending P (current_data l) chunks))
                   (file_counter l + length (flushed P (current_data l) chunks)))).
Proof.
  induction chunks as [|c cs IH]; intros l w Hrows; simpl.
  - exists (stdout w). unfold ret. rewrite app_nil_r, Nat.add_0_r.
    rewrite <- Hrows. by destruct l, w.
  - rewrite total_snoc, <- Hrows. unfold bind.
    destruct (Z.leb_spec P (Z.of_nat (current_rows l + len c))) as [HP|HP].
    + destruct (loop_body_flush prefix P l c w HP) as [out1 ->].
      destruct (IH (mkLocals [] 0 (file_counter l + 1))
                  (mkWorld (written w ++ [(part_name prefix (file_counter l),
                                           glue (current_data l ++ [c]))]) out1)
                  eq_refl) as [out ->].
      exists out. simpl. rewrite <- (assoc_L (++)). simpl.
      do 3 f_equal. lia.
    + rewrite (loop_body_keep prefix P l c w HP).
      destruct (IH (mkLocals (current_data l ++ [c]) (current_rows l + len c)
                             (file_counter l)) w) as [out ->].
      { simpl. by rewrite total_snoc, Hrows. }
      by exists out.
Qed.

End Refinement.

(** ** What the reader yields *)

Section Reader.

Context {Row : Type}.

Implicit Types (recs : list Row) (h : list string).

Lemma read_csv_table n h recs :
  read_csv (Table h recs) n = inr (table_chunks n h recs).
Proof. by destruct recs. Qed.

(** With enough rounds the slicing is the expected recursion. *)
Lemma chunks_go_unfold fuel n recs :
  0 < n → length recs ≤ fuel → recs ≠ [] →
  chunks_go fuel n recs =
    take n recs :: chunks_go (length (drop n recs)) n (drop n recs).
Proof.
  revert recs. induction (lt_wf fuel) as [fuel _ IH]. intros recs Hn Hfuel Hne.
  destruct fuel as [|fuel]; [destruct recs; simpl in *; [done|lia]|].
  destruct recs as [|x recs]; [done|]. cbn [chunks_go]. f_equal.
  set (rest := drop n (x :: recs)).
  assert (length rest ≤ fuel) as Hrest.
  { subst rest. rewrite length_drop. simpl in *. lia. }
  destruct (decide (rest = [])) as [->|Hne'].
  - by destruct fuel.
  - rewrite (IH fuel) by (done || lia).
    rewrite (IH (length rest)) by (done || lia). done.
Qed.

Lemma chunks_go_join fuel n recs :
  0 < n → length recs ≤ fuel → mjoin (chunks_go fuel n recs) = recs.
Proof.
  intros Hn. revert recs. induction fuel as [|fuel IH]; intros recs Hfuel.
  - by destruct recs; simpl in *; [|lia].
  - destruct recs as [|x recs]; [done|]. cbn [chunks_go mjoin list_join].
    rewrite IH; [apply take_drop|].
    rewrite length_drop. simpl in *. lia.
Qed.

Lemma chunks_go_bounds fuel n recs :
  0 < n → Forall (λ c, 1 ≤ length c ≤ n) (chunks_go fuel n recs).
Proof.
  intros Hn. revert recs. induction fuel as [|fuel IH]; intros recs; [done|].
  destruct recs as [|x recs]; [done|]. cbn [chunks_go].
  constructor; [|apply IH].
  rewrite length_take. simpl. lia.
Qed.

Lemma chunks_go_regular fuel n h recs :
  0 < n → length recs ≤ fuel →
  regular n (mkFrame h <$> chunks_go fuel n recs).
Proof.
  intros Hn. revert recs. induction fuel as [|fuel IH]; intros recs Hfuel; [done|].
  destruct recs as [|x recs]; [done|]. cbn [chunks_go fmap list_fmap regular].
  set (rest := drop n (x :: recs)).
  assert (length rest ≤ fuel) as Hrest.
  { subst rest. rewrite length_drop. simpl in *. lia. }
  specialize (IH rest Hrest).
  destruct (chunks_go fuel n rest) as [|c cs] eqn:Hcs; simpl.
  - unfold len. simpl. rewrite length_take. lia.
  - split; [|exact IH]. unfold len. cbn [rows].
    rewrite length_take. apply Nat.min_l.
    destruct (decide (n ≤ length (x :: recs))) as [|Hshort]; [done|].
    subst rest. rewrite drop_ge in Hcs by lia. by destruct fuel.
Qed.

Lemma rows_mkFrame_fmap h (ls : list (list Row)) :
  rows <$> (mkFrame h <$> ls) = ls.
Proof. induction ls as [|r ls IH]; [done|]. cbn [fmap list_fmap] in *. by f_equal. Qed.

Lemma table_chunks_rows n h recs :
  0 < n → mjoin (rows <$> table_chunks n h recs) = recs.
Proof.
  intros Hn. destruct recs as [|x recs]; [done|]. unfold table_chunks.
  rewrite rows_mkFrame_fmap. by apply chunks_go_join.
Qed.

Lemma table_chunks_columns n h recs :
  Forall (λ c, columns c = h) (table_chunks n h recs).
Proof.
  destruct recs as [|x recs]; [by repeat constructor|]. unfold table_chunks.
  apply Forall_fmap, Forall_true. done.
Qed.

Lemma table_chunks_regular n h recs : 0 < n → regular n (table_chunks n h recs).
Proof.
  intros Hn. destruct recs as [|x recs]; [simpl; unfold len; simpl; lia|].
  by apply chunks_go_regular.
Qed.

Lemma table_chunks_nonempty n h recs :
  0 < n → recs ≠ [] → Forall (λ c, 1 ≤ len c) (table_chunks n h recs).
Proof.
  intros Hn Hne. destruct recs as [|x recs]; [done|]. unfold table_chunks.
  apply Forall_fmap. eapply Forall_impl; [by apply chunks_go_bounds|].
  intros c [? _]. done.
Qed.

Lemma table_chunks_total n h recs :
  0 < n → total (table_chunks n h recs) = length recs.
Proof.
  intros Hn. rewrite <- (table_chunks_rows n h recs Hn) at 2.
  generalize (table_chunks n h recs). intros cs.
  induction cs as [|c cs IH]; [done|].
  change (total (c :: cs)) with (len c + total cs).
  rewrite IH. cbn [fmap list_fmap mjoin list_join]. by rewrite length_app.
Qed.

End Reader.

(** ** A run on a table *)

Section Run.

Context {Row : Type}.

Implicit Types (w : World Row) (fs : gmap string (CsvFile Row)).
Implicit Types (recs : list Row) (h : list string).

Lemma try_block_table h recs prefix P w :
  ∃ out, try_block (Table h recs) prefix P w =
    (mkWorld (written w ++ numbered prefix 1
                (glue <$> groups P (table_chunks chunk_size h recs))) out,
     inr tt).
Proof.
  unfold try_block. rewrite read_csv_table. unfold bind at 1, of_sum, ret at 1.
  destruct (for_each_run prefix P (table_chunks chunk_size h recs)
              (mkLocals [] 0 1) w eq_refl) as [out1 Hloop].
  cbn [current_data file_counter] in Hloop.
  unfold bind at 1. rewrite Hloop. cbn [current_data file_counter].
  unfold groups. rewrite fmap_app, numbered_app, length_fmap.
  set (fl := flushed P [] (table_chunks chunk_size h recs)).
  destruct (pending P [] (table_chunks chunk_size h recs)) as [|c r] eqn:Hr.
  - eexists. unfold bind, ret, print. cbn [written stdout fmap list_fmap numbered].
    rewrite !app_nil_r. reflexivity.
  - destruct (write_part_run prefix true
                (mkLocals (c :: r) (total (c :: r)) (1 + length fl))
                (mkWorld (written w ++ numbered prefix 1 (glue <$> fl)) out1)
                (glue (c :: r)) (pd_concat_cons c r)) as [out2 Hw].
    unfold bind. rewrite Hw. clear Hw.
    eexists. unfold print.
    cbn [written stdout fmap list_fmap numbered file_counter].
    rewrite <- (assoc_L (++)). reflexivity.
Qed.

(** On an existing table the script exits with status 0 after writing the
    glued groups under consecutive part names. *)
Lemma convert_table fs p o P w h recs :
  fs !! p = Some (Table h recs) →
  ∃ out, convert_csv_to_excel fs p o P w =
    mkOutcome 0
      (mkWorld (written w ++ numbered (effective_prefix p o) 1
                  (glue <$> groups P (table_chunks chunk_size h recs))) out).
Proof.
  intros Hp. unfold convert_csv_to_excel. rewrite Hp.
  fold (effective_prefix p o).
  unfold bind at 1. unfold print at 1. unfold bind at 1. unfold print at 1.
  edestruct (try_block_table h recs (effective_prefix p o) P) as [out ->].
  by exists out.
Qed.

Lemma artifacts_table fs p o P w h recs :
  fs !! p = Some (Table h recs) → written w = [] →
  artifacts (convert_csv_to_excel fs p o P w) =
    glue <$> groups P (table_chunks chunk_size h recs).
Proof.
  intros Hp Hw. destruct (convert_table fs p o P w h recs Hp) as [out ->].
  unfold artifacts. cbn [world written]. rewrite Hw. apply numbered_snd.
Qed.

End Run.

(** ** Shape of the groups *)

Section Shape.

Context {Row : Type}.

Implicit Types (c : DataFrame Row) (g acc chunks : list (DataFrame Row)).

Variable n : nat.
Variable P : Z.

Lemma total_full acc : Forall (λ c, len c = n) acc → total acc = n * length acc.
Proof.
  induction 1 as [|c acc Hc _ IH]; simpl; [lia|].
  change (total (c :: acc)) with (len c + total acc). lia.
Qed.

Lemma regular_head c chunks : regular n (c :: chunks) → len c ≤ n.
Proof. destruct chunks; simpl; lia. Qed.

Lemma regular_tail c chunks : regular n (c :: chunks) → regular n chunks.
Proof. destruct chunks; simpl; [done|]. by intros [_ ?]. Qed.

Lemma regular_head_full c c' chunks : regular n (c :: c' :: chunks) → len c = n.
Proof. by intros [? _]. Qed.

(** Chunks followed by another chunk are full. *)
Lemma regular_app_full a b : regular n (a ++ b) → b ≠ [] → Forall (λ c, len c = n) a.
Proof.
  intros Hreg Hb. induction a as [|c a IH]; [done|].
  constructor.
  - destruct a as [|c' a]; simpl in Hreg.
    + destruct b; [done|]. by destruct Hreg.
    + by destruct Hreg.
  - apply IH. by eapply regular_tail.
Qed.

Lemma flushed_ready chunks : ∀ acc,
  regular n chunks → Forall (λ c, len c = n) acc →
  (acc = [] ∨ (Z.of_nat (total acc) < P)%Z) →
  Forall (flush_ready n P) (flushed P acc chunks).
Proof.
  induction chunks as [|c cs IH]; intros acc Hreg Hfull Hacc; simpl; [done|].
  destruct (Z.leb_spec P (Z.of_nat (total (acc ++ [c])))) as [HP|HP].
  - constructor.
    + exists acc, c. repeat split; eauto using regular_head.
    + apply IH; eauto using regular_tail.
  - destruct cs as [|c' cs]; [done|].
    apply IH; eauto using regular_tail.
    apply Forall_app; split; [done|].
    repeat constructor. by eapply regular_head_full.
Qed.

Lemma pending_short chunks : ∀ acc,
  (acc = [] ∨ (Z.of_nat (total acc) < P)%Z) →
  pending P acc chunks = [] ∨ (Z.of_nat (total (pending P acc chunks)) < P)%Z.
Proof.
  induction chunks as [|c cs IH]; intros acc Hacc; simpl; [done|].
  destruct (Z.leb_spec P (Z.of_nat (total (acc ++ [c])))) as [HP|HP]; eauto.
Qed.

(** Every group on the disk was either flushed in the loop, or is the
    remainder, which comes last and is below the threshold. *)
Lemma groups_inv chunks :
  regular n chunks →
  ∃ fl tl, groups P chunks = fl ++ tl ∧ Forall (flush_ready n P) fl ∧
           (tl = [] ∨ ∃ r, tl = [r] ∧ r ≠ [] ∧ (Z.of_nat (total r) < P)%Z).
Proof.
  intros Hreg. exists (flushed P [] chunks).
  eexists. split; [reflexivity|]. split; [apply flushed_ready; auto|].
  destruct (pending_short chunks []) as [->|Hlt]; auto.
  destruct (pending P [] chunks) as [|c r]; eauto.
Qed.

Lemma flushed_nonempty chunks : ∀ acc, Forall (λ g, g ≠ []) (flushed P acc chunks).
Proof.
  induction chunks as [|c cs IH]; intros acc; simpl; [done|].
  case_match; [|done]. constructor; [|done]. by destruct acc.
Qed.

Lemma groups_nonempty chunks : Forall (λ g, g ≠ []) (groups P chunks).
Proof.
  unfold groups. apply Forall_app. split; [apply flushed_nonempty|].
  destruct (pending P [] chunks); by repeat constructor.
Qed.

End Shape.

Section Glue.

Context {Row : Type}.

Implicit Types (c : DataFrame Row) (g chunks : list (DataFrame Row)).

Lemma glue_rows_join (gs : list (list (DataFrame Row))) :
  mjoin (rows <$> (glue <$> gs)) = mjoin (rows <$> mjoin gs).
Proof.
  induction gs as [|g gs IH]; [done|].
  rewrite !fmap_cons.
  change (mjoin (g :: gs)) with (g ++ mjoin gs).
  change (mjoin (rows (glue g) :: (rows <$> (glue <$> gs))))
    with (rows (glue g) ++ mjoin (rows <$> (glue <$> gs))).
  by rewrite IH, fmap_app, join_app.
Qed.

Lemma glue_total_join (gs : list (list (DataFrame Row))) :
  sum_list_with len (glue <$> gs) = total (mjoin gs).
Proof.
  induction gs as [|g gs IH]; [done|].
  rewrite fmap_cons.
  change (mjoin (g :: gs)) with (g ++ mjoin gs).
  rewrite total_app, <- IH, <- len_glue. done.
Qed.

Lemma glue_columns h g :
  g ≠ [] → Forall (λ c, columns c = h) g → columns (glue g) = h.
Proof. destruct g as [|c g]; [done|]. intros _ Hg. by inversion Hg. Qed.

Lemma Forall_join_inv {A} (Q : A → Prop) (ls : list (list A)) :
  Forall Q (mjoin ls) → Forall (Forall Q) ls.
Proof.
  induction ls as [|l ls IH]; [done|]. cbn [mjoin list_join].
  rewrite Forall_app. intros [? ?]. constructor; auto.
Qed.

Lemma glue_singleton c : glue [c] = c.
Proof. destruct c as [cols rs]. unfold glue. simpl. by rewrite app_nil_r. Qed.

(** A threshold of zero or less is met by every chunk. *)
Lemma flushed_nonpositive P chunks :
  (P ≤ 0)%Z → flushed P [] chunks = (λ c, [c]) <$> chunks ∧ pending P [] chunks = [].
Proof.
  intros HP. induction chunks as [|c cs [IHf IHp]]; [done|].
  cbn [flushed pending app].
  destruct (Z.leb_spec P (Z.of_nat (total [c]))) as [_|?]; [|lia].
  split; [by rewrite IHf|exact IHp].
Qed.

Lemma groups_nonpositive P chunks : (P ≤ 0)%Z → glue <$> groups P chunks = chunks.
Proof.
  intros HP. unfold groups.
  destruct (flushed_nonpositive P chunks HP) as [-> ->]. rewrite app_nil_r.
  induction chunks as [|c cs IH]; [done|].
  rewrite !fmap_cons, glue_singleton. by f_equal.
Qed.

(** Groups of non-empty chunks are non-empty frames. *)
Lemma groups_positive P chunks :
  Forall (λ c, 1 ≤ len c) chunks → Forall (λ g, 1 ≤ total g) (groups P chunks).
Proof.
  intros Hpos. rewrite <- (groups_join P chunks) in Hpos.
  apply Forall_join_inv in Hpos.
  pose proof (groups_nonempty P chunks) as Hne.
  rewrite Forall_forall in Hpos, Hne. apply Forall_forall. intros g Hg.
  specialize (Hpos g Hg). specialize (Hne g Hg).
  destruct g as [|c g]; [done|]. inversion Hpos; subst.
  change (total (c :: g)) with (len c + total g). lia.
Qed.

Lemma total_join_zero (gs : list (list (DataFrame Row))) :
  Forall (λ g, 1 ≤ total g) gs → total (mjoin gs) = 0 → gs = [].
Proof.
  destruct gs as [|g gs]; [done|]. intros Hpos.
  change (mjoin (g :: gs)) with (g ++ mjoin gs). rewrite total_app.
  inversion Hpos; subst. lia.
Qed.

End Glue.

(** ** Properties of a run *)

Section Claims.

Context {Row : Type}.

Implicit Types (w : World Row) (fs : gmap string (CsvFile Row)).
Implicit Types (recs : list Row) (h : list string) (o : option string).

Lemma chunk_size_pos : 0 < chunk_size.
Proof. pose proof chunk_size_Z. lia. Qed.

Lemma table_glue_rows P h recs :
  mjoin (rows <$> (glue <$> groups P (table_chunks chunk_size h recs))) = recs.
Proof.
  rewrite glue_rows_join, groups_join. apply table_chunks_rows, chunk_size_pos.
Qed.

Lemma table_glue_columns P h recs :
  Forall (λ a, columns a = h)
         (glue <$> groups P (table_chunks chunk_size h recs)).
Proof.
  apply Forall_fmap.
  pose proof (table_chunks_columns chunk_size h recs) as Hcols.
  rewrite <- (groups_join P (table_chunks chunk_size h recs)) in Hcols.
  apply Forall_join_inv in Hcols.
  pose proof (groups_nonempty P (table_chunks chunk_size h recs)) as Hne.
  rewrite Forall_forall in Hcols, Hne. apply Forall_forall. intros g Hg.
  apply glue_columns; auto.
Qed.

(** The size of a group flushed in the loop, in numbers: [k] full chunks
    that stayed below the threshold, and a last chunk of [lc] rows. *)
Lemma flush_ready_size P (g : list (DataFrame Row)) :
  flush_ready chunk_size P g →
  ∃ k lc : Z, Z.of_nat (total g) = (50000 * k + lc)%Z ∧
              (0 ≤ k)%Z ∧ (0 ≤ lc ≤ 50000)%Z ∧
              (k = 0%Z ∨ (50000 * k < P)%Z) ∧ (P ≤ Z.of_nat (total g))%Z ∧
              (Forall (λ c, 1 ≤ len c) g → (1 ≤ lc)%Z).
Proof.
  intros (init & c & -> & Hfull & Hc & Hinit & HP).
  exists (Z.of_nat (length init)), (Z.of_nat (len c)).
  pose proof chunk_size_Z as Hn.
  rewrite total_snoc in *. rewrite (total_full chunk_size init Hfull) in *.
  rewrite Nat2Z.inj_add, Nat2Z.inj_mul, Hn in *.
  repeat split; try lia.
  - destruct Hinit as [->|?]; [left; reflexivity|right; lia].
  - rewrite Forall_app, Forall_singleton. intros [_ ?]. lia.
Qed.

(** C1.  On every table of R records and for every [rows_per_file] of at
    most 1,000,000, the row counts of the artifacts written add up to R, and
    the rows of the artifacts, taken in the order of writing, are exactly the
    input records: none is dropped or written twice.  (The bound on
    [rows_per_file] is the one of the CLI; the proof does not need it.) *)
Theorem C1_rows_sum_to_input fs p o P w h recs :
  fs !! p = Some (Table h recs) → (P ≤ 1000000)%Z → written w = [] →
  sum_list_with len (artifacts (convert_csv_to_excel fs p o P w)) = length recs ∧
  mjoin (rows <$> artifacts (convert_csv_to_excel fs p o P w)) = recs.
Proof.
  intros Hp _ Hw. rewrite (artifacts_table fs p o P w h recs Hp Hw).
  split.
  - rewrite glue_total_join, groups_join.
    apply table_chunks_total, chunk_size_pos.
  - apply table_glue_rows.
Qed.

(** With a threshold of at most 1,000,000 no group exceeds 1,000,000 rows. *)
Lemma table_ceiling fs p o P w h recs :
  fs !! p = Some (Table h recs) → (P ≤ 1000000)%Z → written w = [] →
  Forall (λ a, (Z.of_nat (len a) ≤ 1048576)%Z)
         (artifacts (convert_csv_to_excel fs p o P w)).
Proof.
  intros Hp HP Hw. rewrite (artifacts_table fs p o P w h recs Hp Hw).
  destruct (groups_inv chunk_size P (table_chunks chunk_size h recs))
    as (fl & tl & -> & Hfl & Htl).
  { apply table_chunks_regular, chunk_size_pos. }
  apply Forall_fmap, Forall_app. split.
  - eapply Forall_impl; [exact Hfl|]. intros g Hg. simpl. rewrite len_glue.
    destruct (flush_ready_size P g Hg) as (k & lc & -> & ? & ? & ? & ? & _). lia.
  - destruct Htl as [->|(r & -> & _ & Hr)]; [done|].
    repeat constructor. simpl. rewrite len_glue. lia.
Qed.

(** C2.  For every table and every [rows_per_file] of at most 1,000,000, no
    artifact written holds more than 1,048,576 rows; since the command line
    never hands the function more than 1,000,000, this holds for every run
    started from it, whatever [--rows] says. *)
Theorem C2_sheet_ceiling fs p o P w h recs :
  fs !! p = Some (Table h recs) → (P ≤ 1000000)%Z → written w = [] →
  Forall (λ a, (Z.of_nat (len a) ≤ 1048576)%Z)
         (artifacts (convert_csv_to_excel fs p o P w)) ∧
  ∀ rows_flag, Forall (λ a, (Z.of_nat (len a) ≤ 1048576)%Z)
                      (artifacts (main fs p rows_flag)).
Proof.
  intros Hp HP Hw. split; [by eapply table_ceiling|].
  intros rows_flag. unfold main.
  destruct (Z.ltb_spec 1000000 (default 500000%Z rows_flag)) as [Hbig|Hok];
    cbn [bind print ret]; eapply table_ceiling; eauto; lia.
Qed.

(** C3.  For every table and every positive [rows_per_file] P, every
    artifact but the last one written holds at least P rows, and every
    artifact holds at most P + 50,000 - 1 rows. *)
Theorem C3_threshold_window fs p o P w h recs :
  fs !! p = Some (Table h recs) → (0 < P)%Z → written w = [] →
  (∀ i a, artifacts (convert_csv_to_excel fs p o P w) !! i = Some a →
          S i < length (artifacts (convert_csv_to_excel fs p o P w)) →
          (P ≤ Z.of_nat (len a))%Z) ∧
  Forall (λ a, (Z.of_nat (len a) ≤ P + 50000 - 1)%Z)
         (artifacts (convert_csv_to_excel fs p o P w)).
Proof.
  intros Hp HP Hw. rewrite (artifacts_table fs p o P w h recs Hp Hw).
  destruct (groups_inv chunk_size P (table_chunks chunk_size h recs))
    as (fl & tl & -> & Hfl & Htl).
  { apply table_chunks_regular, chunk_size_pos. }
  split.
  - intros i a Hi Hlast. rewrite length_fmap, length_app in Hlast.
    apply list_lookup_fmap_Some in Hi as (g & -> & Hg).
    assert (i < length fl) as Hifl.
    { destruct Htl as [->|(r & -> & _)]; simpl in Hlast; lia. }
    rewrite lookup_app_l in Hg by done.
    rewrite Forall_lookup in Hfl. specialize (Hfl i g Hg).
    rewrite len_glue.
    destruct (flush_ready_size P g Hfl) as (k & lc & _ & _ & _ & _ & ? & _). done.
  - apply Forall_fmap, Forall_app. split.
    + eapply Forall_impl; [exact Hfl|]. intros g Hg. simpl. rewrite len_glue.
      destruct (flush_ready_size P g Hg) as (k & lc & -> & ? & ? & ? & ? & _). lia.
    + destruct Htl as [->|(r & -> & _ & Hr)]; [done|].
      repeat constructor. simpl. rewrite len_glue. lia.
Qed.

(** C4.  For every table, the script exits with status 0, the artifacts it
    has written carry the part names 1, 2, ... in the order of writing, each
    has the header of the input as its columns, and their rows, joined in
    that order, are the input records. *)
Theorem C4_round_trip fs p o P w h recs :
  fs !! p = Some (Table h recs) → written w = [] →
  exit_status (convert_csv_to_excel fs p o P w) = 0%Z ∧
  written (world (convert_csv_to_excel fs p o P w)) =
    numbered (effective_prefix p o) 1
             (artifacts (convert_csv_to_excel fs p o P w)) ∧
  Forall (λ a, columns a = h) (artifacts (convert_csv_to_excel fs p o P w)) ∧
  mjoin (rows <$> artifacts (convert_csv_to_excel fs p o P w)) = recs.
Proof.
  intros Hp Hw. rewrite (artifacts_table fs p o P w h recs Hp Hw).
  destruct (convert_table fs p o P w h recs Hp) as [out ->].
  cbn [exit_status world written]. rewrite Hw.
  split; [done|]. split; [done|]. split.
  - apply table_glue_columns.
  - apply table_glue_rows.
Qed.

(** How many groups reach the disk when the input has exactly, or one more
    than, [rows_per_file] records. *)
Lemma boundary_groups P h recs :
  (0 < P)%Z → recs ≠ [] →
  (Z.of_nat (length recs) = P →
   ∃ g, groups P (table_chunks chunk_size h recs) = [g]) ∧
  (Z.of_nat (length recs) = (P + 1)%Z →
   ((P mod 50000 = 0)%Z →
    ∃ g1 g2, groups P (table_chunks chunk_size h recs) = [g1; g2] ∧
             Z.of_nat (total g1) = P) ∧
   ((P mod 50000 ≠ 0)%Z →
    ∃ g, groups P (table_chunks chunk_size h recs) = [g])).
Proof.
  intros HP Hne.
  assert (length recs ≠ 0) as HR by (by destruct recs).
  pose proof chunk_size_pos as Hn. pose proof chunk_size_Z as HnZ.
  set (chunks := table_chunks chunk_size h recs).
  pose proof (table_chunks_regular chunk_size h recs Hn) as Hreg.
  pose proof (table_chunks_nonempty chunk_size h recs Hn Hne) as Hchunks.
  pose proof (table_chunks_total chunk_size h recs Hn) as Htotal.
  fold chunks in Hreg, Hchunks, Htotal.
  pose proof (groups_positive P chunks Hchunks) as Hpos.
  pose proof (groups_join P chunks) as Hjoin.
  destruct (groups_inv chunk_size P chunks Hreg) as (fl & tl & Hgs & Hfl & Htl).
  rewrite <- Hjoin in Htotal, Hreg, Hchunks.
  destruct fl as [|g1 fl].
  { (* nothing was flushed: the remainder is below the threshold *)
    cbn [app] in Hgs. rewrite Hgs in Htotal.
    destruct Htl as [->|(r & -> & _ & Hr)].
    - cbn in Htotal. lia.
    - change (mjoin [r]) with (r ++ []) in Htotal.
      rewrite app_nil_r in Htotal. split; [|split]; lia. }
  cbn [app] in Hgs. rewrite Hgs in *. clear Hgs.
  remember (fl ++ tl) as rest eqn:Hrest. clear Hrest Htl.
  apply Forall_cons_1 in Hfl as [Hg1 _]. apply Forall_cons_1 in Hpos as [_ Hpos].
  change (mjoin (g1 :: rest)) with (g1 ++ mjoin rest) in *.
  rewrite total_app in Htotal.
  destruct (flush_ready_size P g1 Hg1) as (k & lc & Hsize & Hk & Hlc & Hkeep & Hreach & Hlast).
  split.
  - intros HRP. exists g1. f_equal. apply total_join_zero; [done|lia].
  - intros HRP. destruct rest as [|g2 rest].
    + split; [|by eexists]. intros Hmod. exfalso.
      cbn in Htotal. rewrite app_nil_r in Hchunks. specialize (Hlast Hchunks).
      pose proof (Z.div_mod P 50000). lia.
    + apply Forall_cons_1 in Hpos as [Hg2 Hpos].
      change (mjoin (g2 :: rest)) with (g2 ++ mjoin rest) in *.
      rewrite total_app in Htotal.
      assert (rest = []) as -> by (apply total_join_zero; [done|lia]).
      assert (Forall (λ c, len c = chunk_size) g1) as Hfull.
      { eapply regular_app_full; [exact Hreg|].
        destruct g2; [cbn in Hg2; lia|done]. }
      apply total_full in Hfull.
      assert (Z.of_nat (total g1) = P) as Hexact by lia.
      split; [exists g1, g2; split; [reflexivity|exact Hexact]|]. intros Hmod. exfalso. apply Hmod.
      rewrite <- Hexact, Hfull, Nat2Z.inj_mul, HnZ, Z.mul_comm.
      apply Z.mod_mul. lia.
Qed.

Lemma one_frame h recs (a : DataFrame Row) :
  columns a = h → mjoin (rows <$> [a]) = recs → [a] = [mkFrame h recs].
Proof.
  destruct a as [cols rs]. cbn. rewrite app_nil_r. by intros -> ->.
Qed.

Lemma two_frames h recs (a1 a2 : DataFrame Row) :
  columns a1 = h → columns a2 = h → mjoin (rows <$> [a1; a2]) = recs →
  [a1; a2] = [mkFrame h (take (len a1) recs); mkFrame h (drop (len a1) recs)].
Proof.
  destruct a1 as [cols1 rs1], a2 as [cols2 rs2]. unfold len. cbn.
  rewrite app_nil_r. intros -> -> <-.
  by rewrite take_app_length, drop_app_length.
Qed.

(** C5 (amended).  For every positive [rows_per_file] P: a table of exactly
    P records yields exactly one artifact, holding them all; a table of
    P + 1 records yields a first artifact of exactly P rows and a second one
    with the last record when P is a multiple of 50,000, and a single
    artifact with all P + 1 records otherwise.  (Nothing is said here of a
    table without records.) *)
Theorem C5_boundaries fs p o P w h recs :
  fs !! p = Some (Table h recs) → (0 < P)%Z → written w = [] →
  (Z.of_nat (length recs) = P →
   artifacts (convert_csv_to_excel fs p o P w) = [mkFrame h recs]) ∧
  (Z.of_nat (length recs) = (P + 1)%Z → (P mod 50000 = 0)%Z →
   artifacts (convert_csv_to_excel fs p o P w) =
     [mkFrame h (take (Z.to_nat P) recs); mkFrame h (drop (Z.to_nat P) recs)]) ∧
  (Z.of_nat (length recs) = (P + 1)%Z → (P mod 50000 ≠ 0)%Z →
   artifacts (convert_csv_to_excel fs p o P w) = [mkFrame h recs]).
Proof.
  intros Hp HP Hw. rewrite (artifacts_table fs p o P w h recs Hp Hw).
  pose proof (table_glue_rows P h recs) as Hrows.
  pose proof (table_glue_columns P h recs) as Hcols.
  assert (recs = [] ∨ recs ≠ []) as [->|Hne] by (destruct recs; auto).
  { cbn [length]. repeat split; intros; lia. }
  destruct (boundary_groups P h recs HP Hne) as [Hexact Hnext].
  split; [|split].
  - intros HR. destruct (Hexact HR) as [g Hg]. rewrite Hg in *.
    change (glue <$> [g]) with [glue g] in *.
    rewrite Forall_singleton in Hcols. by apply one_frame.
  - intros HR Hmod. destruct (Hnext HR) as [Htwo _].
    destruct (Htwo Hmod) as (g1 & g2 & Hg & Hsize). rewrite Hg in *.
    change (glue <$> [g1; g2]) with [glue g1; glue g2] in *.
    apply Forall_cons_1 in Hcols as [Hc1 Hcols].
    rewrite Forall_singleton in Hcols.
    replace (Z.to_nat P) with (len (glue g1)) by (rewrite len_glue; lia).
    by apply two_frames.
  - intros HR Hmod. destruct (Hnext HR) as [_ Hone].
    destruct (Hone Hmod) as [g Hg]. rewrite Hg in *.
    change (glue <$> [g]) with [glue g] in *.
    rewrite Forall_singleton in Hcols. by apply one_frame.
Qed.

(** C6.  A [--rows] value above 1,000,000 is replaced by exactly 1,000,000
    before the splitter runs, after the two warning lines are printed; a
    value of at most 1,000,000 reaches the splitter unchanged and nothing is
    printed before it; without the flag the splitter gets 500,000. *)
Theorem C6_rows_clamped fs p :
  (∀ v, (1000000 < v)%Z →
        main fs p (Some v) =
          convert_csv_to_excel fs p None 1000000
            (mkWorld []
               ["Warning: Excel cannot hold more than 1,048,576 rows per sheet.";
                "Resetting rows limit to 1,000,000."])) ∧
  (∀ v, (v ≤ 1000000)%Z →
        main fs p (Some v) = convert_csv_to_excel fs p None v world0) ∧
  main fs p None = convert_csv_to_excel fs p None 500000 world0.
Proof.
  unfold main. repeat split.
  - intros v Hv. cbn [from_option id]. by rewrite (proj2 (Z.ltb_lt _ _) Hv).
  - intros v Hv. cbn [from_option id]. by rewrite (proj2 (Z.ltb_ge _ _) Hv).
Qed.

(** C7.  When the input path does not exist the function prints the error
    line and nothing else, writes nothing, and the process exits with
    status 1; so does the program started from the command line. *)
Theorem C7_missing_input fs p :
  fs !! p = None →
  (∀ o P w, convert_csv_to_excel fs p o P w =
              mkOutcome 1
                (mkWorld (written w)
                   (stdout w ++
                      ["Error: The file '" +:+ p +:+ "' does not exist."]))) ∧
  (∀ rows_flag, exit_status (main fs p rows_flag) = 1%Z ∧
                artifacts (main fs p rows_flag) = []).
Proof.
  intros Hp.
  assert (∀ o P w, convert_csv_to_excel fs p o P w =
              mkOutcome 1
                (mkWorld (written w)
                   (stdout w ++
                      ["Error: The file '" +:+ p +:+ "' does not exist."])))
    as Hconv.
  { intros o P w. unfold convert_csv_to_excel. by rewrite Hp. }
  split; [exact Hconv|].
  intros rows_flag. unfold main.
  destruct (1000000 <? default 500000 rows_flag)%Z;
    cbn [bind print ret fst snd]; rewrite Hconv; done.
Qed.

(** X14.  For every table with at least one record and every
    [rows_per_file], positive or not, every artifact written holds at least
    one row. *)
Theorem nonempty_input_nonempty_parts fs p o P w h recs :
  fs !! p = Some (Table h recs) → recs ≠ [] → written w = [] →
  Forall (λ a, 1 ≤ len a) (artifacts (convert_csv_to_excel fs p o P w)).
Proof.
  intros Hp Hne Hw. rewrite (artifacts_table fs p o P w h recs Hp Hw).
  apply Forall_fmap.
  eapply Forall_impl.
  - apply groups_positive, table_chunks_nonempty; [apply chunk_size_pos|done].
  - intros g Hg. simpl. by rewrite len_glue.
Qed.

(** C10.  A [--rows] value of zero or less is not rejected and not changed by
    the command line; on a readable table the run completes with status 0,
    and the artifacts written are exactly the frames the reader yielded, one
    artifact per frame, in order. *)
Theorem C10_nonpositive_rows fs p v file chunks :
  fs !! p = Some file → read_csv file chunk_size = inr chunks → (v ≤ 0)%Z →
  main fs p (Some v) = convert_csv_to_excel fs p None v world0 ∧
  exit_status (main fs p (Some v)) = 0%Z ∧
  artifacts (main fs p (Some v)) = chunks.
Proof.
  intros Hp Hread Hv.
  assert (main fs p (Some v) = convert_csv_to_excel fs p None v world0) as ->.
  { unfold main. cbn [from_option id].
    by rewrite (proj2 (Z.ltb_ge 1000000 v)) by lia. }
  split; [done|].
  destruct file as [err|h recs]; [done|].
  rewrite read_csv_table in Hread. injection Hread as <-.
  rewrite (artifacts_table fs p None v world0 h recs Hp eq_refl).
  destruct (convert_table fs p None v world0 h recs Hp) as [out ->].
  split; [done|]. by apply groups_nonpositive.
Qed.

End Claims.

(** ** Further properties of the script *)

Section Effects.

Context {Row : Type}.

Implicit Types (l : Locals Row) (w : World Row) (c df : DataFrame Row).
Implicit Types (chunks acc : list (DataFrame Row)) (fs : gmap string (CsvFile Row)).
Implicit Types (recs : list Row) (h : list string) (o : option string).

Lemma write_part_exact prefix remaining l w df :
  pd_concat (current_data l) = Some df →
  write_part prefix remaining l w =
    (mkWorld (written w ++ [(part_name prefix (file_counter l), df)])
             (stdout w ++ report prefix remaining (file_counter l) df),
     inr tt).
Proof.
  intros Hdf. unfold write_part. rewrite Hdf.
  unfold bind, of_option, ret, print, to_excel, report, part_name.
  cbn [written stdout]. by rewrite <- (assoc_L (++)).
Qed.

Lemma reports_app prefix k (a b : list (DataFrame Row)) :
  reports prefix k (a ++ b) = reports prefix k a ++ reports prefix (k + length a) b.
Proof.
  revert k. induction a as [|x a IH]; intros k.
  - cbn. by rewrite Nat.add_0_r.
  - cbn [app reports length]. rewrite IH, <- (assoc_L (++)).
    do 3 f_equal. lia.
Qed.

Lemma length_reports prefix k (a : list (DataFrame Row)) :
  length (reports prefix k a) = 2 * length a.
Proof.
  revert k. induction a as [|x a IH]; intros k; [done|].
  cbn [reports length app report]. rewrite IH. lia.
Qed.

Lemma loop_body_flush_exact prefix P l c w :
  (P ≤ Z.of_nat (current_rows l + len c))%Z →
  loop_body prefix P l c w =
    (mkWorld (written w ++ [(part_name prefix (file_counter l),
                             glue (current_data l ++ [c]))])
             (stdout w ++ report prefix false (file_counter l)
                            (glue (current_data l ++ [c]))),
     inr (mkLocals [] 0 (file_counter l + 1))).
Proof.
  intros HP. unfold loop_body. simpl.
  rewrite (proj2 (Z.leb_le _ _) HP). unfold bind.
  rewrite (write_part_exact prefix false
             (mkLocals (current_data l ++ [c]) (current_rows l + len c)
                       (file_counter l)) w _ (pd_concat_snoc _ _)).
  reflexivity.
Qed.

Lemma for_each_exact prefix P chunks : ∀ l w,
  current_rows l = total (current_data l) →
  for_each (loop_body prefix P) l chunks w =
    (mkWorld (written w ++ numbered prefix (file_counter l)
                (glue <$> flushed P (current_data l) chunks))
             (stdout w ++ reports prefix (file_counter l)
                (glue <$> flushed P (current_data l) chunks)),
     inr (mkLocals (pending P (current_data l) chunks)
                   (total (pending P (current_data l) chunks))
                   (file_counter l + length (flushed P (current_data l) chunks)))).
Proof.
  induction chunks as [|c cs IH]; intros l w Hrows.
  - cbn [for_each flushed pending fmap list_fmap numbered reports length].
    unfold ret. rewrite !app_nil_r, Nat.add_0_r, <- Hrows. by destruct l, w.
  - cbn [for_each flushed pending]. rewrite total_snoc, <- Hrows.
    unfold bind at 1.
    destruct (Z.leb_spec P (Z.of_nat (current_rows l + len c))) as [HP|HP].
    + rewrite (loop_body_flush_exact prefix P l c w HP).
      rewrite (IH (mkLocals [] 0 (file_counter l + 1))) by done.
      cbn [current_data file_counter written stdout length].
      rewrite fmap_cons. cbn [numbered reports].
      rewrite <- !(assoc_L (++)). cbn [app].
      do 3 f_equal. lia.
    + rewrite (loop_body_keep prefix P l c w HP).
      rewrite (IH (mkLocals (current_data l ++ [c]) (current_rows l + len c)
                            (file_counter l))).
      * done.
      * cbn [current_data current_rows]. by rewrite total_snoc, Hrows.
Qed.

(** The whole effect of a run on a table. *)
Lemma convert_table_exact fs p o P w h recs :
  fs !! p = Some (Table h recs) →
  convert_csv_to_excel fs p o P w =
    mkOutcome 0
      (mkWorld (written w ++ numbered (effective_prefix p o) 1
                  (glue <$> groups P (table_chunks chunk_size h recs)))
               (stdout w ++ transcript p (effective_prefix p o) P
                  (table_chunks chunk_size h recs))).
Proof.
  intros Hp. unfold convert_csv_to_excel. rewrite Hp.
  fold (effective_prefix p o). set (prefix := effective_prefix p o).
  set (chunks := table_chunks chunk_size h recs).
  unfold bind at 1. unfold print at 1. unfold bind at 1. unfold print at 1.
  cbn [written stdout].
  unfold try_block. rewrite read_csv_table. fold chunks.
  unfold bind at 1, of_sum, ret at 1.
  unfold bind at 1. rewrite for_each_exact by done.
  cbn [current_data file_counter written stdout].
  unfold groups, transcript. fold chunks.
  set (fl := flushed P [] chunks).
  rewrite fmap_app, numbered_app, length_fmap.
  destruct (pending P [] chunks) as [|c r] eqn:Hr.
  - unfold bind, ret, print. cbn [written stdout fmap list_fmap numbered].
    rewrite !app_nil_r, <- !(assoc_L (++)). reflexivity.
  - unfold bind.
    rewrite (write_part_exact prefix true
               (mkLocals (c :: r) (total (c :: r)) (1 + length fl)) _
               (glue (c :: r)) (pd_concat_cons c r)).
    unfold print. cbn [written stdout fmap list_fmap numbered file_counter].
    rewrite <- !(assoc_L (++)). reflexivity.
Qed.

End Effects.

(** ** The default prefix: [os.path.splitext] *)

Section PathFacts.

Import os_path.

Implicit Types (s p e : string) (c a : ascii) (i last : Z).

Lemma get_none_iff n s : String.get n s = None ↔ String.length s ≤ n.
Proof.
  revert n. induction s as [|a s IH]; intros n; simpl.
  - split; [lia|done].
  - destruct n as [|n]; [split; [done|lia]|]. rewrite IH. lia.
Qed.

Lemma app_string_cons a s1 s2 : String a s1 +:+ s2 = String a (s1 +:+ s2).
Proof. reflexivity. Qed.

Lemma substring_all s : String.substring 0 (String.length s) s = s.
Proof. induction s as [|a s IH]; simpl; [done|]. by rewrite IH. Qed.

Lemma substring_split n s :
  String.substring 0 n s +:+ String.substring n (String.length s - n) s = s.
Proof.
  revert n. induction s as [|a s IH]; intros n.
  - by destruct n.
  - destruct n as [|n].
    + simpl. by rewrite substring_all.
    + simpl. rewrite app_string_cons. f_equal. apply IH.
Qed.

Lemma substring_app_l s1 s2 :
  String.substring 0 (String.length s1) (s1 +:+ s2) = s1.
Proof.
  induction s1 as [|a s1 IH]; [by destruct s2|].
  rewrite app_string_cons. simpl. by rewrite IH.
Qed.

Lemma substring_app_r s1 s2 :
  String.substring (String.length s1) (String.length s2) (s1 +:+ s2) = s2.
Proof.
  induction s1 as [|a s1 IH]; [apply substring_all|].
  rewrite app_string_cons. simpl. exact IH.
Qed.

Lemma length_app_string s1 s2 :
  String.length (s1 +:+ s2) = String.length s1 + String.length s2.
Proof.
  induction s1 as [|a s1 IH]; [done|].
  rewrite app_string_cons. simpl. by rewrite IH.
Qed.

Lemma get_app_l n s1 s2 :
  n < String.length s1 → String.get n (s1 +:+ s2) = String.get n s1.
Proof.
  revert n. induction s1 as [|a s1 IH]; intros n Hn; [simpl in Hn; lia|].
  rewrite app_string_cons. simpl in *.
  destruct n as [|n]; [done|]. apply IH. lia.
Qed.

Lemma app_string_assoc s1 s2 s3 : (s1 +:+ s2) +:+ s3 = s1 +:+ (s2 +:+ s3).
Proof.
  induction s1 as [|a s1 IH]; [done|].
  rewrite !app_string_cons. by rewrite IH.
Qed.

(** [rfind] scans from the left and keeps the last hit. *)
Lemma rfind_from_app c s1 s2 i last :
  rfind_from c (s1 +:+ s2) i last =
    rfind_from c s2 (i + Z.of_nat (String.length s1)) (rfind_from c s1 i last).
Proof.
  revert i last. induction s1 as [|a s1 IH]; intros i last.
  - simpl. by rewrite Z.add_0_r.
  - rewrite app_string_cons. cbn [rfind_from String.length].
    rewrite IH. f_equal. lia.
Qed.

Lemma rfind_from_spec c s : ∀ i last,
  (last < i)%Z →
  (rfind_from c s i last = last ∧ ∀ j, String.get j s ≠ Some c) ∨
  ((i ≤ rfind_from c s i last < i + Z.of_nat (String.length s))%Z ∧
   String.get (Z.to_nat (rfind_from c s i last - i)) s = Some c ∧
   ∀ j, Z.to_nat (rfind_from c s i last - i) < j → String.get j s ≠ Some c).
Proof.
  induction s as [|a s IH]; intros i last Hlast.
  - left. by split.
  - cbn [rfind_from String.length].
    destruct (Ascii.eqb_spec a c) as [->|Hac].
    + right. destruct (IH (i + 1)%Z i ltac:(lia)) as [[-> Hno]|(Hr & Hget & Hno)].
      * split; [lia|]. rewrite Z.sub_diag. split; [done|].
        intros [|j] Hj; [lia|]. apply Hno.
      * split; [lia|].
        replace (Z.to_nat (rfind_from c s (i + 1) i - i))
          with (S (Z.to_nat (rfind_from c s (i + 1) i - (i + 1)))) by lia.
        split; [done|]. intros [|j] Hj; [lia|]. apply Hno. lia.
    + destruct (IH (i + 1)%Z last ltac:(lia)) as [[-> Hno]|(Hr & Hget & Hno)].
      * left. split; [done|]. intros [|j]; simpl; [congruence|apply Hno].
      * right. split; [lia|].
        replace (Z.to_nat (rfind_from c s (i + 1) last - i))
          with (S (Z.to_nat (rfind_from c s (i + 1) last - (i + 1)))) by lia.
        split; [done|]. intros [|j] Hj; [lia|]. apply Hno. lia.
Qed.

Lemma rfind_spec c s :
  (rfind c s = (-1)%Z ∧ ∀ j, String.get j s ≠ Some c) ∨
  ((0 ≤ rfind c s < Z.of_nat (String.length s))%Z ∧
   String.get (Z.to_nat (rfind c s)) s = Some c ∧
   ∀ j, Z.to_nat (rfind c s) < j → String.get j s ≠ Some c).
Proof.
  unfold rfind.
  destruct (rfind_from_spec c s 0 (-1) ltac:(lia)) as [?|(Hr & Hget & Hno)];
    [by left|right].
  rewrite Z.sub_0_r in Hget, Hno. split; [lia|done].
Qed.

Lemma rfind_from_absent c s i last :
  rfind c s = (-1)%Z → rfind_from c s i last = last.
Proof.
  intros Hr. destruct (rfind_spec c s) as [[_ Hno]|(Hpos & _)]; [|lia]. clear Hr.
  revert i last. induction s as [|a s IH]; intros i last; [done|].
  cbn [rfind_from].
  destruct (Ascii.eqb_spec a c) as [->|_]; [by destruct (Hno 0)|].
  apply IH. intros j. apply (Hno (S j)).
Qed.

(** The scan for a stem succeeds as soon as some character of the range is
    not a dot. *)
Lemma has_stem_true p count : ∀ (start k : nat) a,
  k < count → String.get (start + k) p = Some a → a ≠ "."%char →
  has_stem p start count = true.
Proof.
  induction count as [|count IH]; intros start k a Hk Hget Ha; [lia|].
  cbn [has_stem].
  destruct (String.get start p) as [b|] eqn:Hb.
  - destruct (Ascii.eqb_spec b "."%char) as [->|_]; [|done].
    destruct k as [|k].
    + rewrite Nat.add_0_r in Hget. congruence.
    + apply (IH (S start) k a); [lia| |done].
      by replace (S start + k) with (start + S k) by lia.
  - apply get_none_iff in Hb.
    assert (String.get (start + k) p = None) as Hnone by (apply get_none_iff; lia).
    congruence.
Qed.

Lemma app_string_nil_r s : s +:+ "" = s.
Proof. induction s as [|a s IH]; [done|]. by rewrite app_string_cons, IH. Qed.

Lemma get_app_mid s1 a s2 : String.get (String.length s1) (s1 +:+ String a s2) = Some a.
Proof. induction s1 as [|b s1 IH]; [done|]. rewrite app_string_cons. exact IH. Qed.

Lemma app_string_inj_r s1 s2 t : s1 +:+ t = s2 +:+ t → s1 = s2.
Proof.
  revert s2. induction s1 as [|a s1 IH]; intros s2 Heq.
  - destruct s2 as [|b s2]; [done|].
    change ("" +:+ t) with t in Heq.
    apply (f_equal String.length) in Heq.
    rewrite app_string_cons in Heq. simpl in Heq.
    rewrite length_app_string in Heq. lia.
  - destruct s2 as [|b s2].
    + change ("" +:+ t) with t in Heq.
      apply (f_equal String.length) in Heq.
      rewrite app_string_cons in Heq. simpl in Heq.
      rewrite length_app_string in Heq. lia.
    + rewrite !app_string_cons in Heq. injection Heq as -> Heq.
      f_equal. by apply IH.
Qed.

(** What [splitext] returns: the two parts give the path back, and the
    extension is empty or a dot followed by characters that are neither a
    dot nor a slash. *)
Lemma splitext_parts p :
  (splitext p).1 +:+ (splitext p).2 = p ∧
  ((splitext p).2 = "" ∨
   ∃ e, (splitext p).2 = String "."%char e ∧
        ∀ j, String.get j e ≠ Some "."%char ∧ String.get j e ≠ Some "/"%char).
Proof.
  unfold splitext.
  destruct (Z.ltb_spec (rfind "/" p) (rfind "." p)) as [Hlt|_];
    [|split; [apply app_string_nil_r|by left]].
  destruct (has_stem _ _ _); [|split; [apply app_string_nil_r|by left]].
  cbn [fst snd]. split; [apply substring_split|right].
  destruct (rfind_spec "." p) as [[Hdot _]|(Hdot & Hget & Hlast)].
  { destruct (rfind_spec "/" p) as [[? _]|[? _]]; lia. }
  set (d := Z.to_nat (rfind "." p)) in *.
  assert (d < String.length p) as Hd by lia.
  set (ext := String.substring d (String.length p - d) p).
  assert (∀ j, String.get j ext =
               if decide (j < String.length p - d) then String.get (j + d) p
               else None) as Hext.
  { intros j. subst ext. case_decide.
    - by apply String.substring_correct1.
    - apply String.substring_correct2. lia. }
  destruct ext as [|b e] eqn:He.
  { specialize (Hext 0). rewrite decide_True in Hext by lia.
    simpl in Hext. congruence. }
  assert (b = "."%char) as ->.
  { specialize (Hext 0). rewrite decide_True in Hext by lia.
    simpl in Hext. congruence. }
  exists e. split; [done|]. intros j.
  specialize (Hext (S j)). simpl in Hext. rewrite Hext. case_decide; [|done].
  split; [apply Hlast; lia|].
  destruct (rfind_spec "/" p) as [[_ Hno]|(Hsep & _ & Hno)]; [apply Hno|].
  apply Hno. lia.
Qed.

(** A path that ends in a dot and an extension, after a character that is
    neither a dot nor a slash, is split in front of that dot. *)
Lemma splitext_stem s a e :
  a ≠ "."%char → a ≠ "/"%char →
  rfind "." e = (-1)%Z → rfind "/" e = (-1)%Z →
  splitext (s +:+ String a (String "." e)) = (s +:+ String a "", String "." e).
Proof.
  intros Hdot Hslash Hedot Heslash.
  apply Ascii.eqb_neq in Hdot, Hslash.
  set (p := s +:+ String a (String "." e)).
  assert (rfind "." p = Z.of_nat (String.length s) + 1)%Z as Hd.
  { unfold rfind, p. rewrite rfind_from_app. cbn [rfind_from].
    rewrite Hdot. cbn [Ascii.eqb Bool.eqb]. by rewrite rfind_from_absent. }
  assert (rfind "/" p = rfind "/" s) as Hs.
  { unfold rfind at 1, p. rewrite rfind_from_app. cbn [rfind_from].
    rewrite Hslash. cbn [Ascii.eqb Bool.eqb]. by rewrite rfind_from_absent. }
  assert (rfind "/" s < Z.of_nat (String.length s))%Z as Hsep.
  { destruct (rfind_spec "/" s) as [[-> _]|[? _]]; lia. }
  assert (-1 ≤ rfind "/" s)%Z as Hsep'.
  { destruct (rfind_spec "/" s) as [[-> _]|[? _]]; lia. }
  assert (p = (s +:+ String a "") +:+ String "." e) as Hp.
  { unfold p. by rewrite app_string_assoc. }
  assert (String.length (s +:+ String a "") = String.length s + 1) as Hlen.
  { by rewrite length_app_string. }
  unfold splitext. fold p. rewrite Hd, Hs.
  rewrite (proj2 (Z.ltb_lt _ _)) by lia.
  rewrite (has_stem_true p _ _ (String.length s - Z.to_nat (rfind "/" s + 1)) a).
  - replace (Z.to_nat (Z.of_nat (String.length s) + 1))
      with (String.length (s +:+ String a "")) by lia.
    f_equal.
    + rewrite Hp. apply substring_app_l.
    + replace (String.length p - String.length (s +:+ String a ""))
        with (String.length (String "." e)).
      * rewrite Hp. apply substring_app_r.
      * rewrite Hp, length_app_string. lia.
  - lia.
  - replace (Z.to_nat (rfind "/" s + 1) +
             (String.length s - Z.to_nat (rfind "/" s + 1)))
      with (String.length s) by lia.
    apply get_app_mid.
  - by apply Ascii.eqb_neq.
Qed.

End PathFacts.

(** ** Names, messages and exit status *)

Section Extras.

Context {Row : Type}.

Implicit Types (l : Locals Row) (w : World Row) (c df : DataFrame Row).
Implicit Types (chunks acc : list (DataFrame Row)) (fs : gmap string (CsvFile Row)).
Implicit Types (recs : list Row) (h : list string) (o : option string).

Lemma part_name_inj prefix k k' :
  part_name prefix k = part_name prefix k' → k = k'.
Proof.
  unfold part_name. intros Heq.
  apply (inj (String.app prefix)) in Heq.
  apply (inj (String.app "_part")) in Heq.
  apply app_string_inj_r in Heq. by apply (inj pretty) in Heq.
Qed.

Lemma numbered_names prefix k (frames : list (DataFrame Row)) name df :
  (name, df) ∈ numbered prefix k frames →
  ∃ i, frames !! i = Some df ∧ name = part_name prefix (k + i).
Proof.
  revert k. induction frames as [|x frames IH]; intros k Hin.
  - by apply elem_of_nil in Hin.
  - cbn [numbered] in Hin. apply elem_of_cons in Hin as [Heq|Hin].
    + injection Heq as -> ->. exists 0. by rewrite Nat.add_0_r.
    + destruct (IH (k + 1) Hin) as (i & Hi & ->).
      exists (S i). split; [done|]. f_equal. lia.
Qed.

Lemma numbered_NoDup prefix k (frames : list (DataFrame Row)) :
  NoDup (numbered prefix k frames).*1.
Proof.
  revert k. induction frames as [|x frames IH]; intros k; [constructor|].
  cbn [numbered fmap list_fmap fst]. constructor; [|apply IH].
  intros Hin. apply list_elem_of_fmap in Hin as ([name df] & Hname & Hin).
  cbn [fst] in Hname. subst name.
  apply numbered_names in Hin as (i & _ & Heq).
  apply part_name_inj in Heq. lia.
Qed.

Lemma length_numbered prefix k (frames : list (DataFrame Row)) :
  length (numbered prefix k frames) = length frames.
Proof.
  revert k. induction frames as [|x frames IH]; intros k; [done|].
  cbn [numbered length]. by rewrite IH.
Qed.

Lemma reports_lookup prefix k (frames : list (DataFrame Row)) i df line :
  frames !! i = Some df → line ∈ report prefix false (k + i) df →
  line ∈ reports prefix k frames.
Proof.
  revert k i. induction frames as [|x frames IH]; intros k [|i] Hi Hline;
    try done; cbn [reports]; apply elem_of_app.
  - injection Hi as ->. rewrite Nat.add_0_r in Hline. by left.
  - right. apply (IH (k + 1) i); [exact Hi|].
    by replace (k + 1 + i) with (k + S i) by lia.
Qed.

(** The three ways a run can go. *)
Lemma convert_cases fs p o P w :
  (∃ h recs, fs !! p = Some (Table h recs) ∧
             convert_csv_to_excel fs p o P w =
               mkOutcome 0
                 (mkWorld (written w ++ numbered (effective_prefix p o) 1
                             (glue <$> groups P (table_chunks chunk_size h recs)))
                          (stdout w ++ transcript p (effective_prefix p o) P
                             (table_chunks chunk_size h recs)))) ∨
  ((¬ ∃ h recs, fs !! p = Some (Table h recs)) ∧
   exit_status (convert_csv_to_excel fs p o P w) = 1%Z ∧
   written (world (convert_csv_to_excel fs p o P w)) = written w).
Proof.
  destruct (fs !! p) as [[err|h recs]|] eqn:Hp.
  - right. unfold convert_csv_to_excel. rewrite Hp. cbn.
    split; [by intros (? & ? & ?)|done].
  - left. exists h, recs. split; [done|]. by apply convert_table_exact.
  - right. unfold convert_csv_to_excel. rewrite Hp. cbn.
    split; [by intros (? & ? & ?)|done].
Qed.

(** X2.  When the reader raises, the message of the exception is printed after
    the two progress lines, nothing is written and the status is 1. *)
Theorem read_error_is_reported fs p o P w err :
  fs !! p = Some (Unparsable err) →
  convert_csv_to_excel fs p o P w =
    mkOutcome 1
      (mkWorld (written w)
         (stdout w ++
          [ "Processing '" +:+ p +:+ "'...";
            "Splitting into files of " +:+ pretty P
              +:+ " rows each to save RAM and fit in Excel...";
            "An error occurred: " +:+ err ])).
Proof.
  intros Hp. unfold convert_csv_to_excel. rewrite Hp. cbn.
  by rewrite <- !(assoc_L (++)).
Qed.

(** X3.  No two artifacts of a run share a file name: no part overwrites an
    earlier one. *)
Theorem part_names_distinct fs p o P w :
  written w = [] →
  NoDup (written (world (convert_csv_to_excel fs p o P w))).*1.
Proof.
  intros Hw.
  destruct (convert_cases fs p o P w) as [(h & recs & _ & ->)|(_ & _ & ->)].
  - cbn [world written]. rewrite Hw. apply numbered_NoDup.
  - rewrite Hw. constructor.
Qed.

Lemma flushed_reach P chunks : ∀ acc,
  Forall (λ g, (P ≤ Z.of_nat (total g))%Z) (flushed P acc chunks).
Proof.
  induction chunks as [|c cs IH]; intros acc; cbn [flushed]; [constructor|].
  destruct (Z.leb_spec P (Z.of_nat (total (acc ++ [c])))); [|apply IH].
  constructor; [done|apply IH].
Qed.

Lemma report_file_lines prefix P k df :
  report prefix (bool_decide (Z.of_nat (len df) < P)%Z) k df =
    file_lines P (part_name prefix k, df).
Proof.
  unfold report, file_lines. cbn [fst snd].
  destruct (Z.ltb_spec (Z.of_nat (len df)) P).
  - by rewrite bool_decide_true.
  - by rewrite bool_decide_false by lia.
Qed.

Lemma reports_file_lines prefix P k (frames : list (DataFrame Row)) :
  Forall (λ df, (P ≤ Z.of_nat (len df))%Z) frames →
  reports prefix k frames = mjoin (file_lines P <$> numbered prefix k frames).
Proof.
  intros Hall. revert k. induction Hall as [|df frames Hdf _ IH]; intros k.
  - reflexivity.
  - cbn [reports numbered]. rewrite fmap_cons.
    change (mjoin (?x :: ?l)) with (x ++ mjoin l).
    rewrite <- IH, <- report_file_lines.
    by rewrite bool_decide_false by lia.
Qed.

(** X4.  Whenever the run ends with status 0, what it has printed is exactly:
    the two progress lines; then, for every file written, in the order of
    writing, the announcement with the name and the true number of rows of
    that file, followed by its confirmation; then the success line.  The
    announcement reads "Writing remaining" exactly for a file that holds
    fewer rows than [rows_per_file]. *)
Theorem output_follows_files fs p o P :
  exit_status (convert_csv_to_excel fs p o P world0) = 0%Z →
  stdout (world (convert_csv_to_excel fs p o P world0)) =
    [ "Processing '" +:+ p +:+ "'...";
      "Splitting into files of " +:+ pretty P
        +:+ " rows each to save RAM and fit in Excel..." ] ++
    mjoin (file_lines P <$>
             written (world (convert_csv_to_excel fs p o P world0))) ++
    [ "All conversions successful!" ].
Proof.
  intros Hexit.
  destruct (convert_cases fs p o P world0)
    as [(h & recs & _ & Hrun)|(_ & Hfail & _)]; [|rewrite Hfail in Hexit; lia].
  rewrite Hrun. clear Hrun Hexit.
  cbn [world written stdout world0 app].
  set (prefix := effective_prefix p o).
  set (chunks := table_chunks chunk_size h recs).
  unfold transcript, groups. cbn [app]. do 2 f_equal.
  rewrite fmap_app, numbered_app, fmap_app, join_app, length_fmap.
  rewrite <- (assoc_L (++)). f_equal.
  - apply reports_file_lines. apply Forall_fmap.
    eapply Forall_impl; [apply flushed_reach|].
    intros g Hg. unfold compose. by rewrite len_glue.
  - f_equal.
    destruct (pending_short P chunks []) as [Hnil|Hshort]; [by left| |].
    + by rewrite Hnil.
    + destruct (pending P [] chunks) as [|c r]; [done|].
      cbn [fmap list_fmap numbered].
      change (mjoin [?x]) with (x ++ []). rewrite app_nil_r.
      rewrite <- report_file_lines, bool_decide_true; [done|].
      by rewrite len_glue.
Qed.

(** X9.  The accumulation loop keeps its invariant: whenever one pass of
    the body, or the whole loop, completes without an exception, the counter
    of rows equals the number of rows accumulated, and an accumulator that
    is carried on non-empty is below the threshold. *)
Theorem loop_keeps_invariant prefix P l :
  loop_inv P l →
  (∀ c w w' l',
     loop_body prefix P l c w = (w', inr l') → loop_inv P l') ∧
  (∀ chunks w w' l',
     for_each (loop_body prefix P) l chunks w = (w', inr l') → loop_inv P l').
Proof.
  intros [Hrows Hbelow]. split.
  - intros c w w' l' Hrun.
    destruct (Z.leb_spec P (Z.of_nat (current_rows l + len c))) as [HP|HP].
    + rewrite (loop_body_flush_exact prefix P l c w HP) in Hrun.
      injection Hrun as _ <-. split; [done|by left].
    + rewrite (loop_body_keep prefix P l c w HP) in Hrun.
      injection Hrun as _ <-. split; cbn [current_data current_rows].
      * by rewrite total_snoc, Hrows.
      * by right.
  - intros chunks w w' l' Hrun.
    rewrite (for_each_exact prefix P chunks l w Hrows) in Hrun.
    injection Hrun as _ <-.
    split; cbn [current_data current_rows]; [done|].
    apply pending_short. rewrite <- Hrows. exact Hbelow.
Qed.

(** X5.  With the default prefix no part is ever written over the input file:
    the name of a part differs from the input path. *)
Theorem default_names_spare_input fs p P w name df :
  written w = [] →
  (name, df) ∈ written (world (convert_csv_to_excel fs p None P w)) →
  name ≠ p.
Proof.
  intros Hw Hin Heq. subst name.
  destruct (convert_cases fs p None P w) as [(h & recs & _ & Hrun)|(_ & _ & Hsame)].
  - rewrite Hrun in Hin. cbn [world written] in Hin. rewrite Hw in Hin.
    apply numbered_names in Hin as (i & _ & Hname).
    destruct (splitext_parts p) as [Hjoin Hext].
    unfold part_name, effective_prefix in Hname.
    rewrite <- Hjoin in Hname at 1.
    apply (inj (String.app _)) in Hname.
    destruct Hext as [Hext|(e & Hext & _)]; rewrite Hext in Hname;
      discriminate Hname.
  - rewrite Hsame, Hw in Hin. by apply elem_of_nil in Hin.
Qed.

(** X6.  An input named [stem.ext], where the stem ends in a character other
    than a dot or a slash and the extension holds neither, gets its parts
    named [stem_part1.xlsx], [stem_part2.xlsx], ... when no prefix is
    given. *)
Theorem parts_named_after_stem fs stem a e P w h recs :
  fs !! (stem +:+ String a (String "." e)) = Some (Table h recs) →
  a ≠ "."%char → a ≠ "/"%char →
  os_path.rfind "." e = (-1)%Z → os_path.rfind "/" e = (-1)%Z →
  written w = [] →
  written (world (convert_csv_to_excel fs (stem +:+ String a (String "." e))
                    None P w))
    = numbered (stem +:+ String a "") 1
        (artifacts (convert_csv_to_excel fs (stem +:+ String a (String "." e))
                      None P w)).
Proof.
  intros Hp Hdot Hslash Hedot Heslash Hw.
  rewrite (artifacts_table _ _ None P w h recs Hp Hw).
  rewrite (convert_table_exact _ _ None P w h recs Hp).
  cbn [world written effective_prefix]. rewrite Hw.
  by rewrite (splitext_stem stem a e Hdot Hslash Hedot Heslash).
Qed.

Lemma total_join_cons (g : list (DataFrame Row)) gs :
  total (mjoin (g :: gs)) = total g + total (mjoin gs).
Proof. change (mjoin (g :: gs)) with (g ++ mjoin gs). apply total_app. Qed.

Lemma total_join_app (gs1 gs2 : list (list (DataFrame Row))) :
  total (mjoin (gs1 ++ gs2)) = total (mjoin gs1) + total (mjoin gs2).
Proof. by rewrite join_app, total_app. Qed.

Lemma total_join_at_least P (gs : list (list (DataFrame Row))) :
  Forall (λ g, (P ≤ Z.of_nat (total g))%Z) gs →
  (Z.of_nat (length gs) * P ≤ Z.of_nat (total (mjoin gs)))%Z.
Proof.
  induction 1 as [|g gs Hg _ IH]; [done|].
  rewrite total_join_cons. cbn [length]. lia.
Qed.

Lemma total_join_exact P (gs : list (list (DataFrame Row))) :
  Forall (λ g, Z.of_nat (total g) = P) gs →
  Z.of_nat (total (mjoin gs)) = (Z.of_nat (length gs) * P)%Z.
Proof.
  induction 1 as [|g gs Hg _ IH]; [done|].
  rewrite total_join_cons. cbn [length]. lia.
Qed.

(** X7.  A positive [rows_per_file] P bounds the number of files: a table of R
    records is split into at most R / P + 1 parts. *)
Theorem part_count_bounded fs p o P w h recs :
  fs !! p = Some (Table h recs) → (0 < P)%Z → written w = [] →
  (Z.of_nat (length (artifacts (convert_csv_to_excel fs p o P w)))
     ≤ Z.of_nat (length recs) / P + 1)%Z.
Proof.
  intros Hp HP Hw. rewrite (artifacts_table fs p o P w h recs Hp Hw).
  rewrite length_fmap.
  pose proof (table_chunks_total chunk_size h recs chunk_size_pos) as Htotal.
  rewrite <- (groups_join P (table_chunks chunk_size h recs)) in Htotal.
  destruct (groups_inv chunk_size P (table_chunks chunk_size h recs))
    as (fl & tl & Hgs & Hfl & Htl).
  { apply table_chunks_regular, chunk_size_pos. }
  rewrite Hgs in *. rewrite total_join_app in Htotal. rewrite length_app.
  assert (Z.of_nat (length fl) * P ≤ Z.of_nat (total (mjoin fl)))%Z as Hfl'.
  { apply total_join_at_least. eapply Forall_impl; [exact Hfl|].
    intros g Hg. cbn beta.
    by destruct (flush_ready_size P g Hg) as (_ & _ & _ & _ & _ & _ & ? & _). }
  assert (Z.of_nat (length fl) ≤ Z.of_nat (length recs) / P)%Z.
  { apply Z.div_le_lower_bound; lia. }
  destruct Htl as [->|(r & -> & _)]; cbn [length]; lia.
Qed.

(** X8.  When [rows_per_file] P is a positive multiple of 50,000 (as the default
    500,000 is) nothing overshoots: every part but the last has exactly P
    rows, the last has between 1 and P, and a table of R > 0 records gives
    the least number of parts n with R ≤ n P. *)
Theorem multiples_split_exactly fs p o P w h recs :
  fs !! p = Some (Table h recs) → (0 < P)%Z → (P mod 50000 = 0)%Z →
  recs ≠ [] → written w = [] →
  (∀ i a, artifacts (convert_csv_to_excel fs p o P w) !! i = Some a →
          S i < length (artifacts (convert_csv_to_excel fs p o P w)) →
          Z.of_nat (len a) = P) ∧
  Forall (λ a, (1 ≤ Z.of_nat (len a) ≤ P)%Z)
         (artifacts (convert_csv_to_excel fs p o P w)) ∧
  ((Z.of_nat (length (artifacts (convert_csv_to_excel fs p o P w))) - 1) * P
     < Z.of_nat (length recs)
     ≤ Z.of_nat (length (artifacts (convert_csv_to_excel fs p o P w))) * P)%Z.
Proof.
  intros Hp HP Hmod Hne Hw. rewrite (artifacts_table fs p o P w h recs Hp Hw).
  pose proof chunk_size_pos as Hn.
  set (chunks := table_chunks chunk_size h recs).
  pose proof (table_chunks_total chunk_size h recs Hn) as Htotal.
  pose proof (groups_positive P chunks
                (table_chunks_nonempty chunk_size h recs Hn Hne)) as Hpos.
  fold chunks in Htotal. rewrite <- (groups_join P chunks) in Htotal.
  destruct (groups_inv chunk_size P chunks) as (fl & tl & Hgs & Hfl & Htl).
  { apply table_chunks_regular, chunk_size_pos. }
  rewrite Hgs in *. clear Hgs.
  apply Forall_app in Hpos as [Hposfl Hpostl].
  assert (Forall (λ g, Z.of_nat (total g) = P) fl) as Hexact.
  { eapply Forall_impl; [exact Hfl|]. intros g Hg. cbn beta.
    destruct (flush_ready_size P g Hg) as (k & lc & -> & ? & ? & ? & ? & _).
    pose proof (Z.div_mod P 50000). lia. }
  pose proof (total_join_exact P fl Hexact) as Hsum.
  rewrite total_join_app in Htotal.
  assert (length recs ≠ 0) as HR by (by destruct recs).
  rewrite length_fmap, length_app.
  split; [|split].
  - intros i a Hi Hlast.
    apply list_lookup_fmap_Some in Hi as (g & -> & Hg).
    assert (i < length fl) as Hifl.
    { destruct Htl as [->|(r & -> & _)]; simpl in Hlast; lia. }
    rewrite lookup_app_l in Hg by done.
    rewrite Forall_lookup in Hexact. rewrite len_glue. by apply (Hexact i).
  - apply Forall_fmap, Forall_app. split.
    + eapply Forall_impl; [exact Hexact|]. intros g Hg. unfold compose.
      cbn beta in *. rewrite len_glue. lia.
    + destruct Htl as [->|(r & -> & _ & Hr)]; [done|].
      rewrite Forall_singleton in Hpostl.
      apply Forall_singleton. unfold compose. rewrite len_glue. lia.
  - destruct Htl as [->|(r & -> & _ & Hr)].
    + cbn [mjoin list_join length] in *. change (total []) with 0 in Htotal.
      destruct fl; cbn [length] in *; lia.
    + rewrite Forall_singleton in Hpostl.
      rewrite total_join_cons in Htotal. change (total (mjoin [])) with 0 in Htotal.
      cbn [length]. lia.
Qed.

(** X11.  Every [--rows] value above the cap behaves like the cap itself: the
    same exit status and the same files as with [--rows 1000000]. *)
Theorem above_cap_same_files fs p v :
  (1000000 < v)%Z →
  exit_status (main fs p (Some v)) = exit_status (main fs p (Some 1000000%Z)) ∧
  written (world (main fs p (Some v))) =
    written (world (main fs p (Some 1000000%Z))).
Proof.
  intros Hv. unfold main. cbn [from_option id].
  rewrite (proj2 (Z.ltb_lt _ _) Hv). cbn [Z.ltb Z.compare Pos.compare
    Pos.compare_cont bind print ret written stdout world0 app].
  match goal with
  | |- context [convert_csv_to_excel fs p None 1000000 ?w1] =>
      destruct (convert_cases fs p None 1000000 w1)
        as [(h & recs & Hp & ->)|(Hno & -> & ->)]
  end.
  - by rewrite (convert_table_exact fs p None 1000000 world0 h recs Hp).
  - destruct (convert_cases fs p None 1000000 world0)
      as [(h & recs & Hp & _)|(_ & -> & ->)]; [|done].
    destruct Hno; eauto.
Qed.

Lemma groups_cons_flush P c chunks :
  (P ≤ Z.of_nat (len c))%Z → groups P (c :: chunks) = [c] :: groups P chunks.
Proof.
  intros HP. unfold groups. cbn [flushed pending app].
  change (total [c]) with (len c + 0). rewrite Nat.add_0_r.
  by rewrite (proj2 (Z.leb_le _ _) HP).
Qed.

Lemma groups_small n P chunks :
  regular n chunks → (P ≤ Z.of_nat n)%Z →
  groups P chunks = (λ c, [c]) <$> chunks.
Proof.
  intros Hreg HP. induction chunks as [|c cs IH]; [done|].
  destruct cs as [|c' cs].
  - unfold groups. cbn [flushed pending app fmap list_fmap].
    by destruct (P <=? Z.of_nat (total [c]))%Z.
  - destruct Hreg as [Hc Hreg].
    rewrite groups_cons_flush by lia. rewrite IH by done. done.
Qed.

(** X12.  A [rows_per_file] of at most 50,000 - positive or not - cannot make
    the parts smaller than what one read returns: on a table the artifacts
    are exactly the frames the reader yields, one file per read. *)
Theorem small_threshold_one_part_per_read fs p o P w h recs chunks :
  fs !! p = Some (Table h recs) →
  read_csv (Table h recs) chunk_size = inr chunks →
  (P ≤ 50000)%Z → written w = [] →
  artifacts (convert_csv_to_excel fs p o P w) = chunks.
Proof.
  intros Hp Hread HP Hw. rewrite read_csv_table in Hread. injection Hread as <-.
  rewrite (artifacts_table fs p o P w h recs Hp Hw).
  rewrite (groups_small chunk_size).
  - generalize (table_chunks chunk_size h recs). intros cs.
    induction cs as [|c cs IH]; [done|].
    rewrite !fmap_cons, glue_singleton. by f_equal.
  - apply table_chunks_regular, chunk_size_pos.
  - pose proof chunk_size_Z. lia.
Qed.

Lemma join_nonempty (gs : list (list (DataFrame Row))) :
  gs ≠ [] → Forall (λ g, g ≠ []) gs → mjoin gs ≠ [].
Proof.
  destruct gs as [|g gs]; [done|]. intros _ Hne.
  apply Forall_cons_1 in Hne as [Hg _].
  change (mjoin (g :: gs)) with (g ++ mjoin gs). by destruct g.
Qed.

(** X13.  Every part but the last is made of whole reads: its number of rows is
    a multiple of 50,000, whatever [rows_per_file] is. *)
Theorem parts_are_whole_reads fs p o P w h recs i a :
  fs !! p = Some (Table h recs) → written w = [] →
  artifacts (convert_csv_to_excel fs p o P w) !! i = Some a →
  S i < length (artifacts (convert_csv_to_excel fs p o P w)) →
  (Z.of_nat (len a) mod 50000 = 0)%Z.
Proof.
  intros Hp Hw. rewrite (artifacts_table fs p o P w h recs Hp Hw).
  rewrite length_fmap. intros Hi Hlast.
  apply list_lookup_fmap_Some in Hi as (g & -> & Hg).
  set (gs := groups P (table_chunks chunk_size h recs)) in *.
  pose proof (table_chunks_regular chunk_size h recs chunk_size_pos) as Hreg.
  rewrite <- (groups_join P (table_chunks chunk_size h recs)) in Hreg.
  fold gs in Hreg.
  pose proof (groups_nonempty P (table_chunks chunk_size h recs)) as Hne.
  fold gs in Hne.
  rewrite <- (take_drop_middle gs i g Hg) in Hreg.
  rewrite join_app in Hreg.
  change (mjoin (g :: drop (S i) gs)) with (g ++ mjoin (drop (S i) gs)) in Hreg.
  rewrite (assoc_L (++)) in Hreg.
  apply regular_app_full in Hreg.
  - apply Forall_app in Hreg as [_ Hfull].
    rewrite len_glue, (total_full chunk_size g Hfull), Nat2Z.inj_mul, chunk_size_Z.
    rewrite Z.mul_comm. apply Z.mod_mul. lia.
  - apply join_nonempty.
    + intros Hnil. apply (f_equal length) in Hnil.
      rewrite length_drop in Hnil. simpl in Hnil. lia.
    + by apply Forall_drop.
Qed.

End Extras.

(** ** Concrete runs *)

Module SampleRuns.

Import Samples.

Example splitext_sales : os_path.splitext "data/sales.csv" = ("data/sales", ".csv").
Proof. reflexivity. Qed.

Example splitext_hidden : os_path.splitext "conf.d/.hidden" = ("conf.d/.hidden", "").
Proof. reflexivity. Qed.

Example run_sales :
  main sample_fs "data/sales.csv" (Some 2%Z) =
    mkOutcome 0
      (mkWorld
         [("data/sales_part1.xlsx", mkFrame sales_header sales_rows)]
         ["Processing 'data/sales.csv'...";
          "Splitting into files of 2 rows each to save RAM and fit in Excel...";
          "Writing 3 rows to 'data/sales_part1.xlsx'...";
          "Saved data/sales_part1.xlsx";
          "All conversions successful!"]).
Proof. vm_compute. reflexivity. Qed.

Example run_zero_bytes :
  main sample_fs "data/zero_bytes.csv" None =
    mkOutcome 1
      (mkWorld []
         ["Processing 'data/zero_bytes.csv'...";
          "Splitting into files of 500000 rows each to save RAM and fit in Excel...";
          "An error occurred: No columns to parse from file"]).
Proof. vm_compute. reflexivity. Qed.

Example run_long :
  (λ a, Z.of_nat (len a)) <$> artifacts (main long_fs "long.csv" (Some 50000%Z))
    = [50000%Z; 1%Z].
Proof. vm_compute. reflexivity. Qed.

(** The threshold is only looked at between chunks: with 100,001 records
    and a threshold of 60,000 the first part gets two whole chunks. *)
Example run_overshoot :
  (λ a, Z.of_nat (len a)) <$>
    artifacts (convert_csv_to_excel
                 {[ "big.csv" :=
                      Table sales_header (replicate (Z.to_nat 100001) ["0"; "x"]) ]}
                 "big.csv" None 60000 world0)
    = [100000%Z; 1%Z].
Proof. vm_compute. reflexivity. Qed.

Lemma C1_witness :
  sum_list_with len
    (artifacts (convert_csv_to_excel sample_fs "data/sales.csv" None 2 world0))
    = length sales_rows ∧
  mjoin (rows <$>
    artifacts (convert_csv_to_excel sample_fs "data/sales.csv" None 2 world0))
    = sales_rows.
Proof.
  apply (C1_rows_sum_to_input sample_fs "data/sales.csv" None 2 world0
           sales_header sales_rows);
    [vm_compute; reflexivity | lia | reflexivity].
Defined.

Lemma C2_witness :
  Forall (λ a, (Z.of_nat (len a) ≤ 1048576)%Z)
    (artifacts (convert_csv_to_excel sample_fs "data/sales.csv" None 2 world0)) ∧
  ∀ rows_flag, Forall (λ a, (Z.of_nat (len a) ≤ 1048576)%Z)
                      (artifacts (main sample_fs "data/sales.csv" rows_flag)).
Proof.
  apply (C2_sheet_ceiling sample_fs "data/sales.csv" None 2 world0
           sales_header sales_rows);
    [vm_compute; reflexivity | lia | reflexivity].
Defined.

Lemma C3_witness :
  (∀ i a,
     artifacts (convert_csv_to_excel sample_fs "data/sales.csv" None 2 world0) !! i
       = Some a →
     S i < length (artifacts
                     (convert_csv_to_excel sample_fs "data/sales.csv" None 2 world0)) →
     (2 ≤ Z.of_nat (len a))%Z) ∧
  Forall (λ a, (Z.of_nat (len a) ≤ 2 + 50000 - 1)%Z)
    (artifacts (convert_csv_to_excel sample_fs "data/sales.csv" None 2 world0)).
Proof.
  apply (C3_threshold_window sample_fs "data/sales.csv" None 2 world0
           sales_header sales_rows);
    [vm_compute; reflexivity | lia | reflexivity].
Defined.

Lemma C4_witness :
  exit_status (convert_csv_to_excel sample_fs "data/sales.csv" None 2 world0)
    = 0%Z ∧
  written (world (convert_csv_to_excel sample_fs "data/sales.csv" None 2 world0))
    = numbered (effective_prefix "data/sales.csv" None) 1
        (artifacts (convert_csv_to_excel sample_fs "data/sales.csv" None 2 world0)) ∧
  Forall (λ a, columns a = sales_header)
    (artifacts (convert_csv_to_excel sample_fs "data/sales.csv" None 2 world0)) ∧
  mjoin (rows <$>
    artifacts (convert_csv_to_excel sample_fs "data/sales.csv" None 2 world0))
    = sales_rows.
Proof.
  apply (C4_round_trip sample_fs "data/sales.csv" None 2 world0
           sales_header sales_rows);
    [vm_compute; reflexivity | reflexivity].
Defined.

(** C5, as stated, fails: with [rows_per_file] = 1 and two records (R = P + 1)
    the only chunk already meets the threshold, both records go to part 1
    and no second artifact is written. *)
Lemma C5_counterexample :
  artifacts (convert_csv_to_excel
               {[ "two.csv" := Table ["id"] [["1"]; ["2"]] ]} "two.csv" None 1 world0)
    = [mkFrame ["id"] [["1"]; ["2"]]] ∧
  ¬ ∃ a1 a2 : DataFrame (list string),
      artifacts (convert_csv_to_excel
                   {[ "two.csv" := Table ["id"] [["1"]; ["2"]] ]} "two.csv" None 1 world0)
        = [a1; a2].
Proof.
  split; [vm_compute; reflexivity|].
  intros (a1 & a2 & Heq). vm_compute in Heq. discriminate Heq.
Qed.

Lemma C5_witness :
  artifacts (convert_csv_to_excel sample_fs "data/sales.csv" None 3 world0)
    = [mkFrame sales_header sales_rows] ∧
  artifacts (convert_csv_to_excel long_fs "long.csv" None 50000 world0)
    = [mkFrame sales_header (take (Z.to_nat 50000) long_rows);
       mkFrame sales_header (drop (Z.to_nat 50000) long_rows)] ∧
  artifacts (convert_csv_to_excel sample_fs "data/sales.csv" None 2 world0)
    = [mkFrame sales_header sales_rows].
Proof.
  split; [|split].
  - destruct (C5_boundaries sample_fs "data/sales.csv" None 3 world0
                sales_header sales_rows) as (Hexact & _);
      [vm_compute; reflexivity | lia | reflexivity |].
    apply Hexact. reflexivity.
  - destruct (C5_boundaries long_fs "long.csv" None 50000 world0
                sales_header long_rows) as (_ & Hnext & _);
      [apply lookup_singleton_eq | lia | reflexivity |].
    apply Hnext; vm_compute; reflexivity.
  - destruct (C5_boundaries sample_fs "data/sales.csv" None 2 world0
                sales_header sales_rows) as (_ & _ & Hover);
      [vm_compute; reflexivity | lia | reflexivity |].
    apply Hover; [reflexivity | vm_compute; discriminate].
Defined.

Lemma C6_witness :
  main sample_fs "data/sales.csv" (Some 2000000%Z) =
    convert_csv_to_excel sample_fs "data/sales.csv" None 1000000
      (mkWorld []
         ["Warning: Excel cannot hold more than 1,048,576 rows per sheet.";
          "Resetting rows limit to 1,000,000."]) ∧
  main sample_fs "data/sales.csv" (Some 1000000%Z) =
    convert_csv_to_excel sample_fs "data/sales.csv" None 1000000 world0.
Proof.
  destruct (C6_rows_clamped sample_fs "data/sales.csv") as (Habove & Hbelow & _).
  split; [apply Habove; lia | apply Hbelow; lia].
Defined.

Lemma C7_witness :
  exit_status (main sample_fs "data/missing.csv" None) = 1%Z ∧
  artifacts (main sample_fs "data/missing.csv" None) = [].
Proof.
  destruct (C7_missing_input sample_fs "data/missing.csv") as (_ & Hmain);
    [vm_compute; reflexivity|].
  apply Hmain.
Defined.

(** C9 (defect of the code).  The claim fails on a source with a header and
    no record: the reader yields one empty frame, [current_data] is then a
    non-empty list although it holds no row, and the guard of the final
    flush, which looks at the list and not at [current_rows], lets part 1 be
    written with zero rows - under a comment that says "Write any remaining
    data", and unlike the flush inside the loop, which is guarded by the
    number of rows. *)
Theorem C9_header_only_run :
  artifacts (convert_csv_to_excel sample_fs "data/header_only.csv" None 500000
               world0)
    = [mkFrame sales_header []] ∧
  ¬ Forall (λ a, 1 ≤ len a)
      (artifacts (convert_csv_to_excel sample_fs "data/header_only.csv" None
                    500000 world0)).
Proof.
  split; [vm_compute; reflexivity|].
  intros Hall. vm_compute in Hall.
  apply Forall_cons_1 in Hall as [Hlen _]. vm_compute in Hlen. lia.
Qed.

Lemma nonempty_input_nonempty_parts_witness :
  Forall (λ a, 1 ≤ len a)
    (artifacts (convert_csv_to_excel sample_fs "data/sales.csv" None (-4) world0)).
Proof.
  apply (nonempty_input_nonempty_parts sample_fs "data/sales.csv" None (-4) world0
           sales_header sales_rows);
    [vm_compute; reflexivity | discriminate | reflexivity].
Defined.

Lemma C10_witness :
  main sample_fs "data/sales.csv" (Some (-5)%Z) =
    convert_csv_to_excel sample_fs "data/sales.csv" None (-5) world0 ∧
  exit_status (main sample_fs "data/sales.csv" (Some (-5)%Z)) = 0%Z ∧
  artifacts (main sample_fs "data/sales.csv" (Some (-5)%Z)) =
    [mkFrame sales_header sales_rows].
Proof.
  apply (C10_nonpositive_rows sample_fs "data/sales.csv" (-5)
           (Table sales_header sales_rows) [mkFrame sales_header sales_rows]);
    [vm_compute; reflexivity | vm_compute; reflexivity | lia].
Defined.

End SampleRuns.

(** ** Concrete runs for the further properties *)

Module ExtraRuns.

Import Samples.

Lemma read_error_is_reported_witness :
  convert_csv_to_excel sample_fs "data/zero_bytes.csv" None 500000 world0 =
    mkOutcome 1
      (mkWorld []
         ([] ++
          [ "Processing '" +:+ "data/zero_bytes.csv" +:+ "'...";
            "Splitting into files of " +:+ pretty 500000%Z
              +:+ " rows each to save RAM and fit in Excel...";
            "An error occurred: " +:+ "No columns to parse from file" ])).
Proof.
  apply (read_error_is_reported sample_fs "data/zero_bytes.csv" None 500000
           world0 "No columns to parse from file").
  vm_compute; reflexivity.
Defined.

Lemma part_names_distinct_witness :
  NoDup (written (world (convert_csv_to_excel long_fs "long.csv" None 50000
                           world0))).*1.
Proof. apply (part_names_distinct long_fs "long.csv" None 50000 world0). reflexivity. Defined.

Lemma output_follows_files_witness :
  stdout (world (convert_csv_to_excel long_fs "long.csv" None 50000 world0)) =
    [ "Processing '" +:+ "long.csv" +:+ "'...";
      "Splitting into files of " +:+ pretty 50000%Z
        +:+ " rows each to save RAM and fit in Excel..." ] ++
    mjoin (file_lines 50000 <$>
             written (world (convert_csv_to_excel long_fs "long.csv" None 50000
                               world0))) ++
    [ "All conversions successful!" ].
Proof.
  apply (output_follows_files long_fs "long.csv" None 50000).
  vm_compute; reflexivity.
Defined.

Lemma loop_keeps_invariant_witness :
  loop_inv (Row := list string) 2
    (mkLocals [mkFrame sales_header [["1"; "pen"]]] 1 1) ∧
  loop_inv (Row := list string) 2 (mkLocals [] 0 2).
Proof.
  assert (loop_inv (Row := list string) 2
            (mkLocals [mkFrame sales_header [["1"; "pen"]]] 1 1)) as Hinv
    by (split; [reflexivity | right; vm_compute; reflexivity]).
  split; [exact Hinv|].
  destruct (loop_keeps_invariant "out" 2 _ Hinv) as [Hbody _].
  apply (Hbody (mkFrame sales_header [["2"; "ink"]]) world0
           (mkWorld
              [("out_part1.xlsx",
                mkFrame sales_header [["1"; "pen"]; ["2"; "ink"]])]
              ["Writing 2 rows to 'out_part1.xlsx'..."; "Saved out_part1.xlsx"])).
  vm_compute; reflexivity.
Defined.

Lemma default_names_spare_input_witness :
  ("data/sales_part1.xlsx", mkFrame sales_header sales_rows)
    ∈ written (world (convert_csv_to_excel sample_fs "data/sales.csv" None 2
                        world0)) ∧
  "data/sales_part1.xlsx" ≠ "data/sales.csv".
Proof.
  assert (("data/sales_part1.xlsx", mkFrame sales_header sales_rows)
            ∈ written (world (convert_csv_to_excel sample_fs "data/sales.csv"
                                None 2 world0))) as Hin
    by (vm_compute; left).
  split; [exact Hin|].
  exact (default_names_spare_input sample_fs "data/sales.csv" 2 world0
           "data/sales_part1.xlsx" (mkFrame sales_header sales_rows)
           eq_refl Hin).
Defined.

Lemma parts_named_after_stem_witness :
  written (world (convert_csv_to_excel sample_fs
                    ("data/sale" +:+ String "s" (String "." "csv")) None 2 world0))
    = numbered ("data/sale" +:+ String "s" "") 1
        (artifacts (convert_csv_to_excel sample_fs
                      ("data/sale" +:+ String "s" (String "." "csv")) None 2
                      world0)).
Proof.
  apply (parts_named_after_stem sample_fs "data/sale" "s" "csv" 2 world0
           sales_header sales_rows);
    [vm_compute; reflexivity | discriminate | discriminate
    | reflexivity | reflexivity | reflexivity].
Defined.

Lemma part_count_bounded_witness :
  (Z.of_nat (length (artifacts (convert_csv_to_excel sample_fs "data/sales.csv"
                                  None 2 world0)))
     ≤ Z.of_nat (length sales_rows) / 2 + 1)%Z.
Proof.
  apply (part_count_bounded sample_fs "data/sales.csv" None 2 world0
           sales_header sales_rows);
    [vm_compute; reflexivity | lia | reflexivity].
Defined.

Lemma long_rows_nonempty : long_rows ≠ [].
Proof.
  intros Hnil. apply (f_equal (λ rs, Z.of_nat (length rs))) in Hnil.
  vm_compute in Hnil. discriminate Hnil.
Qed.

Lemma multiples_split_exactly_witness :
  (∀ i a,
     artifacts (convert_csv_to_excel long_fs "long.csv" None 50000 world0) !! i
       = Some a →
     S i < length (artifacts (convert_csv_to_excel long_fs "long.csv" None 50000
                                world0)) →
     Z.of_nat (len a) = 50000%Z) ∧
  Forall (λ a, (1 ≤ Z.of_nat (len a) ≤ 50000)%Z)
    (artifacts (convert_csv_to_excel long_fs "long.csv" None 50000 world0)) ∧
  ((Z.of_nat (length (artifacts (convert_csv_to_excel long_fs "long.csv" None
                                   50000 world0))) - 1) * 50000
     < Z.of_nat (length long_rows)
     ≤ Z.of_nat (length (artifacts (convert_csv_to_excel long_fs "long.csv" None
                                      50000 world0))) * 50000)%Z.
Proof.
  apply (multiples_split_exactly long_fs "long.csv" None 50000 world0
           sales_header long_rows);
    [apply lookup_singleton_eq | lia | reflexivity | apply long_rows_nonempty
    | reflexivity].
Defined.

Lemma above_cap_same_files_witness :
  exit_status (main sample_fs "data/sales.csv" (Some 2000000%Z)) =
    exit_status (main sample_fs "data/sales.csv" (Some 1000000%Z)) ∧
  written (world (main sample_fs "data/sales.csv" (Some 2000000%Z))) =
    written (world (main sample_fs "data/sales.csv" (Some 1000000%Z))).
Proof. apply (above_cap_same_files sample_fs "data/sales.csv" 2000000). lia. Defined.

Lemma small_threshold_one_part_per_read_witness :
  artifacts (convert_csv_to_excel sample_fs "data/sales.csv" None 1 world0)
    = [mkFrame sales_header sales_rows].
Proof.
  apply (small_threshold_one_part_per_read sample_fs "data/sales.csv" None 1
           world0 sales_header sales_rows [mkFrame sales_header sales_rows]);
    [vm_compute; reflexivity | vm_compute; reflexivity | lia | reflexivity].
Defined.

Lemma parts_are_whole_reads_witness :
  ∃ a, artifacts (convert_csv_to_excel long_fs "long.csv" None 50000 world0) !! 0
         = Some a ∧
       (Z.of_nat (len a) mod 50000 = 0)%Z.
Proof.
  assert (length (artifacts (convert_csv_to_excel long_fs "long.csv" None 50000
                               world0)) = 2) as Hlen
    by (vm_compute; reflexivity).
  destruct (artifacts (convert_csv_to_excel long_fs "long.csv" None 50000 world0)
              !! 0) as [a|] eqn:Ha.
  - exists a. split; [reflexivity|].
    apply (parts_are_whole_reads long_fs "long.csv" None 50000 world0
             sales_header long_rows 0 a);
      [apply lookup_singleton_eq | reflexivity | exact Ha | rewrite Hlen; lia].
  - apply lookup_ge_None in Ha. rewrite Hlen in Ha. lia.
Defined.

End ExtraRuns.
